(** * homebridge-button-platform: event ingestion and device registry

    A shallow embedding of [src/platform.ts] and [src/platformAccessory.ts].
    Objects become records, the [Map] of handlers a [gmap], the calls into
    the Homebridge API and into HAP characteristics explicit traces kept in
    the state. *)

From Stdlib Require Import ZArith QArith Qround String Ascii List Bool Lia.
From stdpp Require Import gmap strings list fin_maps.

Open Scope Z_scope.
Open Scope string_scope.

(** ** JavaScript numbers

    A [number] is an IEEE double: a finite value, an infinity or NaN. Every
    finite double is a rational, so finite values are rationals here; the
    operations used by the plug-in ([Math.trunc], [Math.min], [Math.max],
    [<], truthiness) are exact on them. Signed zeros are not told apart:
    none of these operations can observe the sign once [Math.max(0, _)] has
    been applied. *)

Inductive number : Type :=
| NaN
| Infinity (negative : bool)
| Finite (q : Q).

Definition int (z : Z) : number := Finite (inject_Z z).

Definition isNaN (x : number) : bool :=
  match x with NaN => true | _ => false end.

(** [a < b] on numbers; any comparison with NaN is false. *)
Definition lt (a b : number) : bool :=
  match a, b with
  | NaN, _ | _, NaN => false
  | Infinity true, Infinity true => false
  | Infinity true, _ => true
  | _, Infinity true => false
  | Infinity false, _ => false
  | Finite _, Infinity false => true
  | Finite p, Finite q => negb (Qle_bool q p)
  end.

(** Truncation of a rational toward zero. *)
Definition Qtruncate (q : Q) : Z := Z.quot (Qnum q) (Zpos (Qden q)).

Definition Math_trunc (x : number) : number :=
  match x with
  | Finite q => int (Qtruncate q)
  | _ => x
  end.

Definition Math_min (a b : number) : number :=
  if isNaN a || isNaN b then NaN else if lt b a then b else a.

Definition Math_max (a b : number) : number :=
  if isNaN a || isNaN b then NaN else if lt a b then b else a.

(** Truthiness of a number: [0] and [NaN] are falsy. *)
Definition truthy (x : number) : bool :=
  match x with
  | NaN => false
  | Infinity _ => true
  | Finite q => negb (Qeq_bool q 0)
  end.

(** ** Button names

    [generateButtonUri] works on a name character by character, under the
    [u] flag, so a name is the sequence of its Unicode code points. Event
    tokens and header values are only compared and parsed, and are plain
    strings. *)

Definition codepoint := N.
Definition jsstring := list codepoint.

Definition lit (s : string) : jsstring :=
  List.map N_of_ascii (list_ascii_of_string s).

(** ** platformAccessory.ts *)

(** The persisted record of the host framework: [PlatformAccessory]. The
    field [context] is [accessory.context.device]: the configured name when
    the entry is set. *)
Record PlatformAccessory : Type := mkAccessory {
  displayName : jsstring;
  UUID : string;
  context : option jsstring
}.

(** [Characteristic.ProgrammableSwitchEvent] constants. *)
Inductive ProgrammableSwitchEvent : Type :=
| SINGLE_PRESS
| DOUBLE_PRESS
| LONG_PRESS.

(** [Characteristic.StatusLowBattery] constants. *)
Inductive StatusLowBattery : Type :=
| BATTERY_LEVEL_NORMAL
| BATTERY_LEVEL_LOW.

(** Calls a handler makes on the characteristics of its two services, in
    the order they are made. *)
Inductive HapCall : Type :=
| UpdateBatteryLevel (v : number)
| UpdateStatusLowBattery (v : StatusLowBattery)
| SendEventNotification (e : ProgrammableSwitchEvent).

(** [ButtonPlatformAccessory]: the accessory it wraps, the private field
    [batteryLevel], and the trace of its characteristic calls. The static
    set-up of the services done by the constructor (names, manufacturer,
    read handlers) is never read back by the plug-in and is not kept. *)
Record ButtonPlatformAccessory : Type := mkHandler {
  accessory : PlatformAccessory;
  batteryLevel : number;
  hap : list HapCall
}.

(** [new ButtonPlatformAccessory(platform, accessory)] *)
Definition newButtonPlatformAccessory (a : PlatformAccessory)
  : ButtonPlatformAccessory :=
  {| accessory := a; batteryLevel := int 100; hap := [] |}.

(** The [switch] of [triggerEvent]: [None] is the [default] branch. *)
Definition classify (eventType : string) : option ProgrammableSwitchEvent :=
  if String.eqb eventType "click" then Some SINGLE_PRESS
  else if String.eqb eventType "single-press" then Some SINGLE_PRESS
  else if String.eqb eventType "double-click" then Some DOUBLE_PRESS
  else if String.eqb eventType "double-press" then Some DOUBLE_PRESS
  else if String.eqb eventType "hold" then Some LONG_PRESS
  else if String.eqb eventType "long-press" then Some LONG_PRESS
  else None.

(** [updateBattery(level)] *)
Definition updateBattery (level : number) (h : ButtonPlatformAccessory)
  : ButtonPlatformAccessory :=
  let batteryLevel' := Math_max (int 0) (Math_min (int 100) (Math_trunc level)) in
  let isLowBattery := lt batteryLevel' (int 15) in
  {| accessory := accessory h;
     batteryLevel := batteryLevel';
     hap := hap h ++
       [ UpdateBatteryLevel batteryLevel';
         UpdateStatusLowBattery
           (if isLowBattery then BATTERY_LEVEL_LOW else BATTERY_LEVEL_NORMAL) ] |}.

(** [handleBatteryLevelGet] and [handleStatusLowBatteryGet] *)
Definition handleBatteryLevelGet (h : ButtonPlatformAccessory) : number :=
  batteryLevel h.

Definition handleStatusLowBatteryGet (h : ButtonPlatformAccessory)
  : StatusLowBattery :=
  if lt (batteryLevel h) (int 15) then BATTERY_LEVEL_LOW else BATTERY_LEVEL_NORMAL.

(** Lines written to the platform log at level [error]. The line of an
    unknown event carries the event when it is a string. *)
Inductive LogLine : Type :=
| UnknownEventType (eventType : option string)
| AccessoryNotFound (buttonName : jsstring)
| HandlerNotFound (buttonName : jsstring).

(** [triggerEvent(eventType, batteryLevel?)]. The event is [None] when the
    caller passes [undefined] or a value that is not a string, which the
    [switch] sends to [default]. The
    second component is what the call writes to the error log. *)
Definition triggerEvent (eventType : option string) (level : option number)
    (h : ButtonPlatformAccessory) : ButtonPlatformAccessory * list LogLine :=
  let h1 := match level with
            | Some l => updateBattery l h
            | None => h
            end in
  match eventType ≫= classify with
  | None => (h1, [UnknownEventType eventType])
  | Some event =>
      ({| accessory := accessory h1;
          batteryLevel := batteryLevel h1;
          hap := hap h1 ++ [SendEventNotification event] |}, [])
  end.

(** Notifications sent so far by a handler. *)
Definition notifications (h : ButtonPlatformAccessory)
  : list ProgrammableSwitchEvent :=
  omap (fun c => match c with SendEventNotification e => Some e | _ => None end)
       (hap h).

(** ** express-validator, as used by [setupRoute]

    A request is seen through the four values the route reads: the [event]
    entry of the query string, of the parsed body and of the headers, and
    the [button-battery-level] header; [None] is [undefined]. The query
    string and the body can hold an array or another value where a string
    is expected; Node joins repeated headers into one string. *)

(** A value found at [event] in the query string or in the body: a string,
    an array (a repeated parameter, a JSON array), each element given by the
    string the validator makes of it, or another value (a number, a
    boolean, an object), whose string form is never one of the tokens. A
    [null] counts as absent: [??] skips it and the validator reads it as
    the empty string, as it does an absent value. Header values are
    strings. *)
Inductive EventValue : Type :=
| Str (s : string)
| Arr (items : list string)
| Other.

(** The value as a string, when it is one: what a strict comparison with a
    string sees of it. *)
Definition asString (v : EventValue) : option string :=
  match v with
  | Str s => Some s
  | _ => None
  end.

Record Request : Type := mkRequest {
  query_event : option EventValue;
  body_event : option EventValue;
  headers_event : option string;
  headers_battery : option string
}.

Inductive Location : Type := InQuery | InBody | InHeaders.

Record FieldError : Type := mkFieldError {
  location : Location;
  path : string;
  value : option string
}.

(** An entry of [validationResult(req).array()]: the grouped error of a
    failed [oneOf], or the error of a single field. *)
Inductive ValidationError : Type :=
| AlternativeError (nestedErrors : list FieldError)
| FieldValidationError (e : FieldError).

Definition validEvents : list string :=
  ["click"; "double-click"; "hold"; "single-press"; "double-press"; "long-press"].

(** [isIn(values)]: the value is turned into a string first, an absent one
    into the empty string. *)
Definition isIn (values : list string) (v : option string) : bool :=
  bool_decide (default "" v ∈ values).

Definition isDigit (c : ascii) : bool :=
  let n := N_of_ascii c in ((48 <=? n) && (n <=? 57))%N.

Fixpoint decimal (acc : Z) (s : string) : option Z :=
  match s with
  | EmptyString => Some acc
  | String c r =>
      if isDigit c then decimal (10 * acc + (Z.of_N (N_of_ascii c) - 48)) r
      else None
  end.

Definition unsignedInt (s : string) : option Z :=
  match s with
  | EmptyString => None
  | _ => decimal 0 s
  end.

(** The value of a string matching [/^[-+]?[0-9]+$/], the pattern of
    [isInt]; [None] when it does not match. *)
Definition signedInt (s : string) : option Z :=
  match s with
  | String "+"%char r => unsignedInt r
  | String "-"%char r => Z.opp <$> unsignedInt r
  | _ => unsignedInt s
  end.

(** [isInt({ min, max })] *)
Definition isInt (min max : Z) (s : string) : bool :=
  match signedInt s with
  | Some v => ((min <=? v) && (v <=? max))%Z
  | None => false
  end.

(** [Number(s)] on the strings [isInt] accepts, the only ones the route
    converts; any other string is outside this model and yields [NaN]. *)
Definition Number (s : string) : number :=
  match signedInt s with
  | Some v => int v
  | None => NaN
  end.

(** [query('event').isIn(validEvents)] and its two siblings. The validator
    runs on each element of an array, one error per failing element, and on
    any other value as a whole. *)
Definition eventChain (loc : Location) (v : option EventValue) : list FieldError :=
  match v with
  | Some (Arr items) =>
      (fun s => {| location := loc; path := "event"; value := Some s |})
        <$> filter (fun s => s ∉ validEvents) items
  | _ =>
      if isIn validEvents (v ≫= asString) then []
      else [ {| location := loc; path := "event"; value := v ≫= asString |} ]
  end.

(** [oneOf(chains)]: no error as soon as one chain has none. *)
Definition oneOf (chains : list (list FieldError)) : list ValidationError :=
  if existsb (fun errs => bool_decide (length errs = 0%nat)) chains then []
  else [AlternativeError (concat chains)].

(** [header('button-battery-level').optional().isInt({ min: 0, max: 100 })] *)
Definition batteryChain (v : option string) : list ValidationError :=
  match v with
  | None => []
  | Some s =>
      if isInt 0 100 s then []
      else [FieldValidationError
              {| location := InHeaders; path := "button-battery-level";
                 value := Some s |}]
  end.

Definition validationResult (req : Request) : list ValidationError :=
  oneOf [ eventChain InQuery (query_event req);
          eventChain InBody (body_event req);
          eventChain InHeaders (Str <$> headers_event req) ]
  ++ batteryChain (headers_battery req).

(** [a ?? b] *)
Definition coalesce {A} (a b : option A) : option A :=
  match a with
  | Some x => Some x
  | None => b
  end.

(** [req.query?.event ?? req.body?.event ?? req.headers?.event] *)
Definition eventSource (req : Request) : option EventValue :=
  coalesce (coalesce (query_event req) (body_event req))
           (Str <$> headers_event req).

(** The same [as string]: the cast does nothing at run time, and the
    [switch] of [triggerEvent] compares strictly with strings, so a value
    that is not a string reaches it as no string at all. *)
Definition requestEvent (req : Request) : option string :=
  eventSource req ≫= asString.

(** [batteryLevel ? Number(batteryLevel) : undefined] *)
Definition requestBattery (req : Request) : option number :=
  match headers_battery req with
  | Some s => if bool_decide (s = "") then None else Some (Number s)
  | None => None
  end.

Inductive ResponseBody : Type :=
| Text (s : string)
| Json (errors : list ValidationError).

Record Response : Type := mkResponse {
  status : Z;
  body : ResponseBody
}.

(** ** platform.ts *)

Record ButtonConfig : Type := mkConfig {
  config_port : option number;
  config_buttons : option (list jsstring)
}.

(** Calls made on [this.api], each with its single accessory. *)
Inductive ApiCall : Type :=
| UpdatePlatformAccessories (a : PlatformAccessory)
| RegisterPlatformAccessories (a : PlatformAccessory)
| UnregisterPlatformAccessories (a : PlatformAccessory).

Record Route : Type := mkRoute {
  uri : jsstring;
  routeButton : jsstring
}.

(** The fields of [ButtonPlatform], with the calls made on the API object,
    the routes given to the Express application and the lines logged at
    level [error]. *)
Record ButtonPlatform : Type := mkPlatform {
  accessories : list PlatformAccessory;
  accessoryHandlers : gmap string ButtonPlatformAccessory;
  port : number;
  buttons : list jsstring;
  api : list ApiCall;
  routes : list Route;
  log : list LogLine
}.

Definition with_accessories (l : list PlatformAccessory) (st : ButtonPlatform) :=
  mkPlatform l (accessoryHandlers st) (port st) (buttons st) (api st)
             (routes st) (log st).

Definition with_accessoryHandlers (m : gmap string ButtonPlatformAccessory)
    (st : ButtonPlatform) :=
  mkPlatform (accessories st) m (port st) (buttons st) (api st) (routes st)
             (log st).

Definition call (c : ApiCall) (st : ButtonPlatform) :=
  mkPlatform (accessories st) (accessoryHandlers st) (port st) (buttons st)
             (api st ++ [c]) (routes st) (log st).

Definition addRoute (r : Route) (st : ButtonPlatform) :=
  mkPlatform (accessories st) (accessoryHandlers st) (port st) (buttons st)
             (api st) (routes st ++ [r]) (log st).

Definition logError (lines : list LogLine) (st : ButtonPlatform) :=
  mkPlatform (accessories st) (accessoryHandlers st) (port st) (buttons st)
             (api st) (routes st) (log st ++ lines).

(** The constructor: [config.port || 3001] and [config.buttons || []]. *)
Definition newButtonPlatform (config : ButtonConfig) : ButtonPlatform :=
  {| accessories := [];
     accessoryHandlers := ∅;
     port := match config_port config with
             | Some p => if truthy p then p else int 3001
             | None => int 3001
             end;
     buttons := default [] (config_buttons config);
     api := [];
     routes := [];
     log := [] |}.

(** [configureAccessory(accessory)] *)
Definition configureAccessory (st : ButtonPlatform) (a : PlatformAccessory)
  : ButtonPlatform :=
  with_accessories (accessories st ++ [a]) st.

(** [existingAccessory.context.device = { name: buttonName }] *)
Definition setContext (buttonName : jsstring) (a : PlatformAccessory)
  : PlatformAccessory :=
  {| displayName := displayName a; UUID := UUID a; context := Some buttonName |}.

(** The members of the class [a-z0-9]. *)
Definition classMembers : list codepoint :=
  List.map N.of_nat (seq 97 26 ++ seq 48 10).

Definition hyphen : codepoint := 45%N.

(** Instances of the engine functions the plug-in is parameterised by
    below, used to run the definitions on concrete names. They agree with
    the engine on Basic Latin, on U+017F (long s, which is its own lower
    case and folds to [s]) and on U+212A (Kelvin sign, which lower-cases and
    folds to [k]). *)

Definition isUpper (c : codepoint) : bool := ((65 <=? c) && (c <=? 90))%N.

Definition basicLowerCase (s : jsstring) : jsstring :=
  List.map (fun c => if isUpper c then (c + 32)%N
                     else if (c =? 8490)%N then 107%N else c) s.

Definition basicFold (c : codepoint) : codepoint :=
  if isUpper c then (c + 32)%N
  else if (c =? 383)%N then 115%N
  else if (c =? 8490)%N then 107%N
  else c.

(** An identifier function for closed examples: the name itself, read as
    bytes. *)
Definition nameUuid (name : jsstring) : string :=
  string_of_list_ascii (List.map ascii_of_N name).

(** A request whose query string holds a token outside the accepted ones
    and whose body holds an accepted one. *)
Definition conflictingRequest : Request :=
  {| query_event := Some (Str "bogus");
     body_event := Some (Str "click");
     headers_event := None;
     headers_battery := None |}.

(** A request whose only event source is the body, holding the array
    ["click"], with a battery header. *)
Definition arrayRequest : Request :=
  {| query_event := None;
     body_event := Some (Arr ["click"]);
     headers_event := None;
     headers_battery := Some "5" |}.

(** U+017F, LATIN SMALL LETTER LONG S. *)
Definition long_s : codepoint := 383%N.

(** A configuration with one button, and the accessory the framework keeps
    for it. *)
Definition doorbell : jsstring := lit "Doorbell".

Definition doorbellConfig : ButtonConfig :=
  {| config_port := None; config_buttons := Some [doorbell] |}.

Definition doorbellAccessory : PlatformAccessory :=
  {| displayName := doorbell; UUID := nameUuid doorbell; context := Some doorbell |}.

Definition clickRequest : Request :=
  {| query_event := Some (Str "click");
     body_event := None;
     headers_event := None;
     headers_battery := None |}.

Definition unknownEventRequest : Request :=
  {| query_event := Some (Str "not-a-real-event");
     body_event := None;
     headers_event := None;
     headers_battery := None |}.

(** ** Sequences of calls and what a trace last pushed *)

(** [triggerEvent] called once per entry, in order, on one handler. *)
Definition triggerAll (calls : list (option string * option number))
    (h : ButtonPlatformAccessory) : ButtonPlatformAccessory :=
  foldl (fun h c => fst (triggerEvent (fst c) (snd c) h)) h calls.

(** The value of the last [updateValue] on the battery-level
    characteristic, and on the low-battery one. *)
Definition lastBatteryLevel (t : list HapCall) : option number :=
  last (omap (fun c => match c with UpdateBatteryLevel v => Some v | _ => None end) t).

Definition lastStatusLowBattery (t : list HapCall) : option StatusLowBattery :=
  last (omap (fun c => match c with UpdateStatusLowBattery v => Some v | _ => None end) t).

(** ** The services of an accessory, as the constructor of
    [ButtonPlatformAccessory] sets them up

    A service is seen through what the plug-in does to it: the values given
    with [setCharacteristic] and the read handlers given with [onGet], each
    kept per characteristic. *)

Inductive ServiceType : Type :=
| AccessoryInformation
| StatelessProgrammableSwitch
| Battery
| OtherService (uuid : string).

Global Instance ServiceType_eq_dec : EqDecision ServiceType.
Proof. solve_decision. Defined.

Module Characteristic.
Inductive t : Type :=
| Manufacturer
| Model
| SerialNumber
| Name
| BatteryLevel
| StatusLowBattery
| ChargingState.
End Characteristic.

Global Instance Characteristic_eq_dec : EqDecision Characteristic.t.
Proof. solve_decision. Defined.

(** The three read handlers the constructor binds. *)
Inductive GetHandler : Type :=
| BatteryLevelGet
| StatusLowBatteryGet
| NotChargeableGet.

Record Service : Type := mkService {
  serviceType : ServiceType;
  values : list (Characteristic.t * jsstring);
  onGet : list (Characteristic.t * GetHandler)
}.

(** The first entry of a key in an association list. *)
Fixpoint assoc {V} (k : Characteristic.t) (l : list (Characteristic.t * V))
  : option V :=
  match l with
  | [] => None
  | (k', v) :: r => if decide (k' = k) then Some v else assoc k r
  end.

(** Setting a key: the first entry of the key is replaced, or a new entry
    is added at the end. *)
Fixpoint setEntry {V} (k : Characteristic.t) (v : V)
    (l : list (Characteristic.t * V)) : list (Characteristic.t * V) :=
  match l with
  | [] => [(k, v)]
  | (k', v') :: r =>
      if decide (k' = k) then (k, v) :: r else (k', v') :: setEntry k v r
  end.

(** [service.setCharacteristic(c, v)] *)
Definition setCharacteristic (c : Characteristic.t) (v : jsstring) (s : Service)
  : Service :=
  {| serviceType := serviceType s; values := setEntry c v (values s);
     onGet := onGet s |}.

(** [service.getCharacteristic(c).onGet(handler)] *)
Definition setOnGet (c : Characteristic.t) (g : GetHandler) (s : Service)
  : Service :=
  {| serviceType := serviceType s; values := values s;
     onGet := setEntry c g (onGet s) |}.

Definition hasType (ty : ServiceType) (s : Service) : bool :=
  bool_decide (serviceType s = ty).

(** [accessory.getService(ty)]: the first service of the type. *)
Definition getService (ty : ServiceType) (services : list Service)
  : option Service :=
  List.find (hasType ty) services.

(** [accessory.addService(ty)] *)
Definition addService (ty : ServiceType) (services : list Service)
  : list Service :=
  (services ++ [ {| serviceType := ty; values := []; onGet := [] |} ])%list.

(** A change made to the object [getService] returned: the first service
    satisfying the test is changed where it is. *)
Fixpoint alterFirst (P : Service -> bool) (f : Service -> Service)
    (l : list Service) : list Service :=
  match l with
  | [] => []
  | s :: r => if P s then f s :: r else s :: alterFirst P f r
  end.

(** [accessory.getService(ty) || accessory.addService(ty)] *)
Definition getOrAddService (ty : ServiceType) (services : list Service)
  : list Service :=
  match getService ty services with
  | Some _ => services
  | None => addService ty services
  end.

(** The outcome of the constructor on the services of its accessory: the
    services it leaves, and whether it returned or threw on the way (a
    [TypeError], when the information service or the context is missing). *)
Inductive Construction : Type :=
| Constructed (services : list Service)
| Threw (services : list Service).

(** What the constructor writes on the information service, on the switch
    service and on the battery service. *)
Definition writeInformation (a : PlatformAccessory) (s : Service) : Service :=
  setCharacteristic Characteristic.SerialNumber (lit (UUID a))
    (setCharacteristic Characteristic.Model (lit "Virtual Button")
       (setCharacteristic Characteristic.Manufacturer (lit "Homebridge") s)).

Definition writeSwitch (name : jsstring) (s : Service) : Service :=
  setCharacteristic Characteristic.Name (name ++ lit " Switch")%list s.

Definition writeBattery (name : jsstring) (s : Service) : Service :=
  setOnGet Characteristic.ChargingState NotChargeableGet
    (setOnGet Characteristic.StatusLowBattery StatusLowBatteryGet
       (setOnGet Characteristic.BatteryLevel BatteryLevelGet
          (setCharacteristic Characteristic.Name
             (name ++ lit " Battery")%list s))).

(** The constructor of [ButtonPlatformAccessory], on the services. The
    context is read when the name of the switch service is computed, after
    that service was fetched or added. *)
Definition constructServices (a : PlatformAccessory) (services : list Service)
  : Construction :=
  match getService AccessoryInformation services with
  | None => Threw services
  | Some _ =>
      let services :=
        alterFirst (hasType AccessoryInformation) (writeInformation a) services in
      let services := getOrAddService StatelessProgrammableSwitch services in
      match context a with
      | None => Threw services
      | Some name =>
          let services :=
            alterFirst (hasType StatelessProgrammableSwitch) (writeSwitch name)
              services in
          let services := getOrAddService Battery services in
          let services :=
            alterFirst (hasType Battery) (writeBattery name) services in
          Constructed services
      end
  end.

(** A service as [addService] creates it. *)
Definition newService (ty : ServiceType) : Service :=
  {| serviceType := ty; values := []; onGet := [] |}.

(** ** Requests as Express hands them over *)

(** A request once the body parsers have run: the path the router matches,
    the URL as received, and the values the route reads. *)
Record HttpRequest : Type := mkHttpRequest {
  reqPath : string;
  originalUrl : string;
  fields : Request
}.

(** Lines written to the platform log at level [warn] by the fallback. *)
Inductive WarnLine : Type :=
| UnconfiguredPath (url : string).

(** Further values for closed instances: a request with an event header
    and a battery header, two names with the same path, a path test that
    asks for the route's path exactly, and the services of a new accessory
    before and after a construction. *)
Definition holdRequest : Request :=
  {| query_event := None;
     body_event := None;
     headers_event := Some "hold";
     headers_battery := Some "5" |}.


Definition exactPath (routePath : jsstring) (p : string) : bool :=
  bool_decide (routePath = lit p).

Definition informationOnly : list Service := [newService AccessoryInformation].

Definition builtServices : list Service :=
  match constructServices doorbellAccessory informationOnly with
  | Constructed l => l
  | Threw l => l
  end.

Section Platform.

(** [this.api.hap.uuid.generate] *)
Variable generate : jsstring -> string.

(** [String.prototype.toLowerCase] *)
Variable toLowerCase : jsstring -> jsstring.

(** [Canonicalize] of a regular expression with the flags [i] and [u]:
    the simple case folding of a code point. *)
Variable Canonicalize : codepoint -> codepoint.

(** Whether [/[^a-z0-9]/iu] matches the code point: the class is
    inverted, and a member is found when some member of [a-z0-9] has the
    same canonical form. *)
Definition matchesClass (ch : codepoint) : bool :=
  let cc := Canonicalize ch in
  let found := existsb (fun a => (Canonicalize a =? cc)%N) classMembers in
  negb found.

(** [s.replace(/[^a-z0-9]/giu, '-')] *)
Definition replaceAll (s : jsstring) : jsstring :=
  List.map (fun ch => if matchesClass ch then hyphen else ch) s.

(** [generateButtonUri(buttonName)] *)
Definition generateButtonUri (buttonName : jsstring) : jsstring :=
  (lit "/button-" ++ replaceAll (toLowerCase buttonName))%list.

(** One iteration of the first loop of [discoverDevices]. The accessory
    found is changed in place, at its position in [this.accessories]. *)
Definition discoverButton (st : ButtonPlatform) (buttonName : jsstring)
  : ButtonPlatform :=
  let uuid := generate buttonName in
  match list_find (fun a => UUID a = uuid) (accessories st) with
  | Some (i, existingAccessory) =>
      let existingAccessory := setContext buttonName existingAccessory in
      let st := with_accessories (<[i := existingAccessory]> (accessories st)) st in
      let st := call (UpdatePlatformAccessories existingAccessory) st in
      let handler := newButtonPlatformAccessory existingAccessory in
      with_accessoryHandlers (<[uuid := handler]> (accessoryHandlers st)) st
  | None =>
      let accessory :=
        {| displayName := buttonName; UUID := uuid;
           context := Some buttonName |} in
      let handler := newButtonPlatformAccessory accessory in
      let st := with_accessoryHandlers
                  (<[uuid := handler]> (accessoryHandlers st)) st in
      call (RegisterPlatformAccessories accessory) st
  end.

(** One iteration of the second loop of [discoverDevices]. *)
Definition removeAccessory (st : ButtonPlatform) (a : PlatformAccessory)
  : ButtonPlatform :=
  let st := with_accessoryHandlers (delete (UUID a) (accessoryHandlers st)) st in
  call (UnregisterPlatformAccessories a) st.

(** [discoverDevices()] *)
Definition discoverDevices (st : ButtonPlatform) : ButtonPlatform :=
  let st := foldl discoverButton st (buttons st) in
  let configuredUUIDs := generate <$> buttons st in
  let accessoriesToRemove :=
    filter (fun a => UUID a ∉ configuredUUIDs) (accessories st) in
  foldl removeAccessory st accessoriesToRemove.

(** The handler given to [app.all] by [setupRoute(buttonName)]. *)
Definition routeHandler (buttonName : jsstring) (req : Request)
    (st : ButtonPlatform) : Response * ButtonPlatform :=
  let errors := validationResult req in
  if negb (bool_decide (errors = [])) then
    ({| status := 422; body := Json errors |}, st)
  else
    let event := requestEvent req in
    let level := requestBattery req in
    let uuid := generate buttonName in
    match List.find (fun acc => bool_decide (UUID acc = uuid)) (accessories st) with
    | None =>
        ({| status := 404; body := Text "Button not found." |},
         logError [AccessoryNotFound buttonName] st)
    | Some _ =>
        match accessoryHandlers st !! uuid with
        | None =>
            ({| status := 500; body := Text "Server error." |},
             logError [HandlerNotFound buttonName] st)
        | Some buttonAccessory =>
            let '(buttonAccessory, lines) :=
              triggerEvent event level buttonAccessory in
            ({| status := 200; body := Text "OK" |},
             logError lines
               (with_accessoryHandlers
                  (<[uuid := buttonAccessory]> (accessoryHandlers st)) st))
        end
    end.

(** [setupRoute(buttonName)]: one [app.all] call. *)
Definition setupRoute (st : ButtonPlatform) (buttonName : jsstring)
  : ButtonPlatform :=
  addRoute {| uri := generateButtonUri buttonName; routeButton := buttonName |} st.

(** The loop of [setupExpressServer()]. *)
Definition setupExpressServer (st : ButtonPlatform) : ButtonPlatform :=
  foldl setupRoute st (buttons st).

(** The [didFinishLaunching] callback. *)
Definition didFinishLaunching (st : ButtonPlatform) : ButtonPlatform :=
  setupExpressServer (discoverDevices st).

(** *** The host framework

    The framework owns the persisted accessories and is not part of the
    plug-in; the three definitions below state its side of the contract. *)

(** Modelled from the spec: the start of the host framework, which builds
    the platform, hands it every persisted accessory through
    [configureAccessory] and then fires [didFinishLaunching]. *)
Definition startup (config : ButtonConfig) (persisted : list PlatformAccessory)
  : ButtonPlatform :=
  didFinishLaunching (foldl configureAccessory (newButtonPlatform config) persisted).

(** Modelled from the spec: the effect of an API call on the persisted set.
    A registered accessory joins it and an unregistered one leaves it; an
    update only asks for a save, the accessory having been changed in place
    already. *)
Definition applyCall (store : list PlatformAccessory) (c : ApiCall)
  : list PlatformAccessory :=
  match c with
  | UpdatePlatformAccessories _ => store
  | RegisterPlatformAccessories a => (store ++ [a])%list
  | UnregisterPlatformAccessories a => filter (fun b => UUID b <> UUID a) store
  end.

(** Modelled from the spec: the persisted set once the platform [st] has
    run. The accessories handed over at start-up are the framework's own
    objects, so it starts from [this.accessories] as the run left it. *)
Definition persistedAfter (st : ButtonPlatform) : list PlatformAccessory :=
  foldl applyCall (accessories st) (api st).

(** What a run of [discoverDevices] reports, read off the API calls. *)
Definition restored (st : ButtonPlatform) : list PlatformAccessory :=
  omap (fun c => match c with UpdatePlatformAccessories a => Some a | _ => None end)
       (api st).

Definition added (st : ButtonPlatform) : list PlatformAccessory :=
  omap (fun c => match c with RegisterPlatformAccessories a => Some a | _ => None end)
       (api st).

Definition removed (st : ButtonPlatform) : list PlatformAccessory :=
  omap (fun c => match c with UnregisterPlatformAccessories a => Some a | _ => None end)
       (api st).

(** The platform after a request to the route of a button, and after a
    sequence of them. *)
Definition serve (st : ButtonPlatform) (r : jsstring * Request) : ButtonPlatform :=
  snd (routeHandler (fst r) (snd r) st).

Definition serveAll (st : ButtonPlatform) (rs : list (jsstring * Request))
  : ButtonPlatform :=
  foldl serve st rs.

(** The application as [setupExpressServer] leaves it: the routes in the
    order they were added, each answering by itself, then the fallback,
    which answers 404 and logs the URL. The first argument is Express's
    test of a request path against the path of a route. *)
Definition handleRequest (pathMatches : jsstring -> string -> bool)
    (r : HttpRequest) (st : ButtonPlatform)
  : Response * ButtonPlatform * list WarnLine :=
  match List.find (fun route => pathMatches (uri route) (reqPath r)) (routes st) with
  | Some route => (routeHandler (routeButton route) (fields r) st, [])
  | None =>
      ({| status := 404; body := Text "Button not found." |}, st,
       [UnconfiguredPath (originalUrl r)])
  end.

(** ** Specification vocabulary *)

(** [t] is [q] truncated toward zero: the integer next to [q] on the side
    of zero. *)
Definition truncates (q : Q) (t : Z) : Prop :=
  ((0 <= q)%Q -> (inject_Z t <= q)%Q /\ (q < inject_Z t + 1)%Q) /\
  ((q <= 0)%Q -> (q <= inject_Z t)%Q /\ (inject_Z t - 1 < q)%Q).

(** The stored level as a mathematical function of the input. *)
Definition levelOf (x : number) (n : Z) : Prop :=
  match x with
  | Finite q => exists t, truncates q t /\ n = Z.max 0 (Z.min 100 t)
  | Infinity negative => n = if negative then 0 else 100
  | NaN => False
  end.

(** A source holds one of the six accepted tokens. *)
Definition acceptedToken (v : option string) : Prop :=
  exists s, v = Some s /\ s ∈ validEvents.

(** A header value reads as an integer between 0 and 100. *)
Definition integerInRange (s : string) : Prop :=
  exists v, signedInt s = Some v /\ 0 <= v <= 100.

(** A source holds an accepted token when its value is a string of the
    list. *)
Definition holdsToken (v : option EventValue) : Prop :=
  acceptedToken (v ≫= asString).

(** A source the validator accepts: an accepted token, or an array all of
    whose elements are accepted tokens, the empty array included. *)
Definition acceptedSource (v : option EventValue) : Prop :=
  match v with
  | Some (Arr items) => Forall (fun s => s ∈ validEvents) items
  | _ => acceptedToken (v ≫= asString)
  end.

(** The validators accept no source, or the battery header is present and
    does not read as an integer between 0 and 100. *)
Definition failsValidation (req : Request) : Prop :=
  (~ acceptedSource (query_event req) /\
   ~ acceptedSource (body_event req) /\
   ~ acceptedToken (headers_event req)) \/
  (exists s, headers_battery req = Some s /\ ~ integerInRange s).

(** The display name of the first accessory of the list with the given
    identifier, when there is one. *)
Definition cachedName (accs : list PlatformAccessory) (u : string)
  : option jsstring :=
  (fun r => displayName (snd r)) <$> list_find (fun a => UUID a = u) accs.

(** The accessory a configured name ends up with: the cached one with its
    context refreshed, or a new one. *)
Definition accessoryFor (accs : list PlatformAccessory) (n : jsstring)
  : PlatformAccessory :=
  {| displayName := default n (cachedName accs (generate n));
     UUID := generate n;
     context := Some n |}.

Definition callFor (accs : list PlatformAccessory) (n : jsstring) : ApiCall :=
  match cachedName accs (generate n) with
  | Some _ => UpdatePlatformAccessories (accessoryFor accs n)
  | None => RegisterPlatformAccessories (accessoryFor accs n)
  end.

(** [l] is [l0] up to the context of the accessories whose identifier is
    in [S]. *)
Definition touched (S : list string) (l l0 : list PlatformAccessory) : Prop :=
  Forall2 (fun a b => UUID a = UUID b /\ displayName a = displayName b /\
                      (UUID b ∉ S -> a = b)) l l0.

(** The configured names have pairwise distinct identifiers. *)
Definition distinctIdentifiers (names : list jsstring) : Prop :=
  forall n m, n ∈ names -> m ∈ names -> generate n = generate m -> n = m.

(** The index as the first loop builds it, and as the second loop prunes
    it. *)
Definition insertHandlers (accs : list PlatformAccessory)
    (m : gmap string ButtonPlatformAccessory) (names : list jsstring)
  : gmap string ButtonPlatformAccessory :=
  foldl (fun m n =>
           <[generate n := newButtonPlatformAccessory (accessoryFor accs n)]> m)
        m names.

Definition deleteHandlers (m : gmap string ButtonPlatformAccessory)
    (l : list PlatformAccessory) : gmap string ButtonPlatformAccessory :=
  foldl (fun m a => delete (UUID a) m) m l.

(** The cached accessories whose identifier no configured name has. *)
Definition stale (names : list jsstring) (accs : list PlatformAccessory)
  : list PlatformAccessory :=
  filter (fun a => UUID a ∉ generate <$> names) accs.

(** The accessories a start-up registers: one per configured name that
    has no cached accessory. *)
Definition newOnes (accs : list PlatformAccessory) (names : list jsstring)
  : list PlatformAccessory :=
  omap (fun n => match cachedName accs (generate n) with
                 | Some _ => None
                 | None => Some (accessoryFor accs n)
                 end) names.

(** ** Properties of numbers and of the battery update *)


Lemma lt_int (a b : Z) : lt (int a) (int b) = (a <? b)%Z.
Proof.
  unfold lt, int, Qle_bool; simpl.
  rewrite !Z.mul_1_r. rewrite Z.ltb_antisym. reflexivity.
Qed.

Lemma Math_min_int (a b : Z) : Math_min (int a) (int b) = int (Z.min a b).
Proof.
  unfold Math_min. simpl isNaN. cbn [orb]. rewrite lt_int.
  destruct (Z.ltb_spec b a); f_equal; lia.
Qed.

Lemma Math_max_int (a b : Z) : Math_max (int a) (int b) = int (Z.max a b).
Proof.
  unfold Math_max. simpl isNaN. cbn [orb]. rewrite lt_int.
  destruct (Z.ltb_spec a b); f_equal; lia.
Qed.

Lemma Qtruncate_truncates (q : Q) : truncates q (Qtruncate q).
Proof.
  destruct q as [n d]. unfold truncates, Qtruncate, Qle, Qlt; simpl.
  pose proof (Z.quot_rem' n (Zpos d)) as E.
  split; intros H.
  - assert (0 <= n) as Hn by lia.
    pose proof (Z.rem_bound_pos n (Zpos d) Hn ltac:(lia)).
    split; nia.
  - assert (n <= 0) as Hn by lia.
    pose proof (Z.rem_bound_pos_neg n (Zpos d) ltac:(lia) Hn).
    split; nia.
Qed.

Lemma clamp_levelOf (x : number) :
  x <> NaN ->
  exists n, levelOf x n /\ 0 <= n <= 100 /\
    Math_max (int 0) (Math_min (int 100) (Math_trunc x)) = int n.
Proof.
  intros Hx. destruct x as [| [] | q]; [congruence | | |].
  - exists 0. repeat split; try lia.
  - exists 100. repeat split; try lia.
  - exists (Z.max 0 (Z.min 100 (Qtruncate q))). split; [|split; [lia|]].
    + exists (Qtruncate q). split; [apply Qtruncate_truncates | reflexivity].
    + simpl Math_trunc. rewrite Math_min_int, Math_max_int. reflexivity.
Qed.

Lemma notifications_app (h : ButtonPlatformAccessory) a b l :
  hap h = (l ++ [UpdateBatteryLevel a; UpdateStatusLowBattery b])%list ->
  notifications h =
    omap (fun c => match c with SendEventNotification e => Some e | _ => None end) l.
Proof.
  intros E. unfold notifications. rewrite E, omap_app. simpl.
  apply app_nil_r.
Qed.

Lemma notifications_updateBattery (l : number) (h : ButtonPlatformAccessory) :
  notifications (updateBattery l h) = notifications h.
Proof. eapply notifications_app. reflexivity. Qed.

(** ** The battery update *)


(** ** Event classification and [triggerEvent] *)

Lemma classify_other (s : string) : s ∉ validEvents -> classify s = None.
Proof.
  intros H. unfold classify.
  repeat match goal with
  | |- context [String.eqb s ?t] =>
      destruct (String.eqb_spec s t) as [->|_];
      [exfalso; apply H; apply list_elem_of_In; simpl; tauto|]
  end.
  reflexivity.
Qed.

(** C6: classification is a function of the token alone, defined on every
    string: "click" and "single-press" give single-press, "double-click"
    and "double-press" give double-press, "hold" and "long-press" give
    long-press, the match is exact and case-sensitive, every other string
    falls to the default branch, and a call of [triggerEvent] with such a
    string sends no notification. *)
Theorem classify_table :
  classify "click" = Some SINGLE_PRESS /\
  classify "single-press" = Some SINGLE_PRESS /\
  classify "double-click" = Some DOUBLE_PRESS /\
  classify "double-press" = Some DOUBLE_PRESS /\
  classify "hold" = Some LONG_PRESS /\
  classify "long-press" = Some LONG_PRESS /\
  classify "Click" = None /\ classify "HOLD" = None /\
  classify " click" = None /\ classify "" = None /\
  (forall s : string,
     s <> "click" -> s <> "single-press" -> s <> "double-click" ->
     s <> "double-press" -> s <> "hold" -> s <> "long-press" ->
     classify s = None /\
     forall level h,
       notifications (fst (triggerEvent (Some s) level h)) = notifications h).
Proof.
  repeat (split; [reflexivity|]).
  intros s H1 H2 H3 H4 H5 H6.
  assert (classify s = None) as E.
  { apply classify_other. unfold validEvents. rewrite !not_elem_of_cons.
    repeat split; auto. apply not_elem_of_nil. }
  split; [exact E|].
  intros level h. unfold triggerEvent. simpl. rewrite E. simpl.
  destruct level; [apply notifications_updateBattery | reflexivity].
Qed.

(** C7: when the event does not classify, [triggerEvent] sends no
    notification and does nothing beyond logging the unknown event; a
    battery level, when one is supplied, is still applied: the handler is
    exactly the one [updateBattery] leaves, with its stored level and its
    two characteristic updates, and without a level the handler is
    untouched. *)
Theorem triggerEvent_unknown (eventType : option string)
    (level : option number) (h : ButtonPlatformAccessory) :
  eventType ≫= classify = None ->
  notifications (fst (triggerEvent eventType level h)) = notifications h /\
  snd (triggerEvent eventType level h) = [UnknownEventType eventType] /\
  (level = None -> fst (triggerEvent eventType level h) = h) /\
  (forall l, level = Some l ->
     let b := Math_max (int 0) (Math_min (int 100) (Math_trunc l)) in
     fst (triggerEvent eventType level h) = updateBattery l h /\
     batteryLevel (fst (triggerEvent eventType level h)) = b /\
     hap (fst (triggerEvent eventType level h)) =
       (hap h ++
        [ UpdateBatteryLevel b;
          UpdateStatusLowBattery
            (if lt b (int 15) then BATTERY_LEVEL_LOW
             else BATTERY_LEVEL_NORMAL) ])%list).
Proof.
  intros E. unfold triggerEvent. rewrite E. cbn [fst snd].
  split; [|split; [reflexivity|split]].
  - destruct level; [apply notifications_updateBattery | reflexivity].
  - intros ->. reflexivity.
  - intros l ->. repeat split.
Qed.

(** ** The constructor *)

(** A number is falsy when it is NaN or zero. *)
Lemma truthy_false (p : number) :
  truthy p = false <-> p = NaN \/ exists q, p = Finite q /\ (q == 0)%Q.
Proof.
  destruct p as [| b | q]; simpl.
  - split; [auto | reflexivity].
  - split; [discriminate | intros [|(q & ? & _)]; discriminate].
  - rewrite negb_false_iff, Qeq_bool_iff. split.
    + intros H. right. exists q. split; [reflexivity | exact H].
    + intros [|(q' & [= <-] & H)]; [discriminate | exact H].
Qed.

(** C10: the port is 3001 when the configuration has none and whenever
    the configured value is falsy (zero or NaN), in particular for a
    configured port 0; a configured port is kept only when it is truthy. *)
Theorem port_default :
  (forall config, config_port config = None ->
     port (newButtonPlatform config) = int 3001) /\
  (forall config p, config_port config = Some p ->
     (p = NaN \/ exists q, p = Finite q /\ (q == 0)%Q) ->
     port (newButtonPlatform config) = int 3001) /\
  (forall config p, config_port config = Some p ->
     ~ (p = NaN \/ exists q, p = Finite q /\ (q == 0)%Q) ->
     port (newButtonPlatform config) = p) /\
  (forall names,
     port (newButtonPlatform {| config_port := Some (int 0);
                                config_buttons := names |}) = int 3001 /\
     port (newButtonPlatform {| config_port := Some (int 8080);
                                config_buttons := names |}) = int 8080).
Proof.
  split; [|split; [|split]].
  - intros config E. unfold newButtonPlatform. simpl. rewrite E. reflexivity.
  - intros config p E H. unfold newButtonPlatform. simpl. rewrite E.
    apply truthy_false in H. rewrite H. reflexivity.
  - intros config p E H. unfold newButtonPlatform. simpl. rewrite E.
    destruct (truthy p) eqn:T; [reflexivity|].
    apply truthy_false in T. contradiction.
  - intros names. split; reflexivity.
Qed.

(** ** Validation of a request *)

Lemma isIn_accepted (v : option string) :
  isIn validEvents v = true <-> acceptedToken v.
Proof.
  unfold isIn, acceptedToken. rewrite bool_decide_eq_true. split.
  - destruct v as [s|]; simpl; intros H.
    + exists s. split; [reflexivity | exact H].
    + exfalso. apply list_elem_of_In in H. simpl in H.
      repeat (destruct H as [H|H]; [discriminate H|]). exact H.
  - intros (s & -> & H). exact H.
Qed.

Lemma isIn_rejected (v : option string) :
  ~ acceptedToken v -> isIn validEvents v = false.
Proof.
  intros H. destruct (isIn validEvents v) eqn:E; [|reflexivity].
  apply isIn_accepted in E. contradiction.
Qed.

Lemma isInt_inRange (s : string) :
  isInt 0 100 s = true <-> integerInRange s.
Proof.
  unfold isInt, integerInRange. destruct (signedInt s) as [v|].
  - rewrite andb_true_iff, !Z.leb_le. split.
    + intros H. exists v. split; [reflexivity | exact H].
    + intros (v' & [= <-] & H). exact H.
  - split; [discriminate | intros (v & [=] & _)].
Qed.

Lemma acceptedSource_Str (h : option string) :
  acceptedSource (Str <$> h) <-> acceptedToken h.
Proof. destruct h as [s|]; reflexivity. Qed.

Lemma filter_rejected_nil (items : list string) :
  filter (fun s => s ∉ validEvents) items = [] <->
  Forall (fun s => s ∈ validEvents) items.
Proof.
  induction items as [|a items IH].
  - split; [constructor | reflexivity].
  - rewrite filter_cons. destruct (decide (a ∉ validEvents)) as [Ha|Ha].
    + split; [discriminate|]. intros H. inversion H; subst. contradiction.
    + rewrite IH. split.
      * intros H. constructor; [|exact H].
        destruct (decide (a ∈ validEvents)); [assumption | contradiction].
      * intros H. inversion H; assumption.
Qed.

(** A chain reports no error exactly on the sources the validator
    accepts. *)
Lemma eventChain_nil (loc : Location) (v : option EventValue) :
  eventChain loc v = [] <-> acceptedSource v.
Proof.
  assert (forall w : option string,
    (if isIn validEvents w then []
     else [ {| location := loc; path := "event"; value := w |} ]) = []
    <-> acceptedToken w) as Hw.
  { intros w. rewrite <- isIn_accepted.
    destruct (isIn validEvents w); split; congruence. }
  destruct v as [[s|items|]|]; unfold eventChain, acceptedSource;
    try apply Hw.
  rewrite <- filter_rejected_nil. split.
  - apply fmap_nil_inv.
  - intros ->. reflexivity.
Qed.

Lemma oneOf_nil (a b c : list FieldError) :
  oneOf [a; b; c] = [] <-> a = [] \/ b = [] \/ c = [].
Proof.
  unfold oneOf. destruct a, b, c; simpl; split; intros H;
    try reflexivity; try discriminate; try tauto;
    destruct H as [H | [H | H]]; discriminate H.
Qed.

Lemma events_rejected (req : Request) :
  ~ acceptedSource (query_event req) ->
  ~ acceptedSource (body_event req) ->
  ~ acceptedToken (headers_event req) ->
  oneOf [ eventChain InQuery (query_event req);
          eventChain InBody (body_event req);
          eventChain InHeaders (Str <$> headers_event req) ]
  = [ AlternativeError
        (eventChain InQuery (query_event req) ++
         eventChain InBody (body_event req) ++
         eventChain InHeaders (Str <$> headers_event req)) ].
Proof.
  intros Hq Hb Hh.
  rewrite <- (eventChain_nil InQuery) in Hq.
  rewrite <- (eventChain_nil InBody) in Hb.
  rewrite <- acceptedSource_Str, <- (eventChain_nil InHeaders) in Hh.
  unfold oneOf.
  destruct (eventChain InQuery (query_event req)); [contradiction|].
  destruct (eventChain InBody (body_event req)); [contradiction|].
  destruct (eventChain InHeaders (Str <$> headers_event req));
    [contradiction|].
  simpl. rewrite app_nil_r. reflexivity.
Qed.

Lemma events_accepted (req : Request) :
  acceptedSource (query_event req) \/ acceptedSource (body_event req) \/
  acceptedToken (headers_event req) ->
  oneOf [ eventChain InQuery (query_event req);
          eventChain InBody (body_event req);
          eventChain InHeaders (Str <$> headers_event req) ] = [].
Proof.
  intros H. apply oneOf_nil. rewrite !eventChain_nil, acceptedSource_Str.
  exact H.
Qed.

Lemma battery_rejected (s : string) :
  ~ integerInRange s ->
  batteryChain (Some s) =
    [ FieldValidationError
        {| location := InHeaders; path := "button-battery-level";
           value := Some s |} ].
Proof.
  intros H. unfold batteryChain. destruct (isInt 0 100 s) eqn:E; [|reflexivity].
  apply isInt_inRange in E. contradiction.
Qed.

(** A request passes validation exactly when the validator accepts some
    source, whichever, and the battery header is absent or in range. *)
Lemma validationResult_nil (req : Request) :
  validationResult req = [] <->
  (acceptedSource (query_event req) \/ acceptedSource (body_event req) \/
   acceptedToken (headers_event req)) /\
  (forall s, headers_battery req = Some s -> integerInRange s).
Proof.
  unfold validationResult. split.
  - intros H. apply app_eq_nil in H as [H1 H2]. split.
    + apply oneOf_nil in H1.
      rewrite !eventChain_nil, acceptedSource_Str in H1. exact H1.
    + intros s E. rewrite E in H2. unfold batteryChain in H2.
      destruct (isInt 0 100 s) eqn:Ei; [|discriminate].
      apply isInt_inRange. exact Ei.
  - intros [H1 H2]. rewrite events_accepted by exact H1. simpl.
    unfold batteryChain. destruct (headers_battery req) as [s|]; [|reflexivity].
    destruct (isInt 0 100 s) eqn:Ei; [reflexivity|].
    specialize (H2 s eq_refl). apply isInt_inRange in H2. congruence.
Qed.

Lemma routeHandler_invalid (buttonName : jsstring) (req : Request)
    (st : ButtonPlatform) :
  validationResult req <> [] ->
  routeHandler buttonName req st =
    ({| status := 422; body := Json (validationResult req) |}, st).
Proof.
  intros H. unfold routeHandler.
  rewrite bool_decide_eq_false_2 by exact H. reflexivity.
Qed.

(** A request the validators reject is answered 422 with the non-empty
    list of validation errors, which names each violated constraint, and
    the platform is left exactly as it was. *)
Lemma routeHandler_rejects (buttonName : jsstring) (req : Request)
    (st : ButtonPlatform) :
  failsValidation req ->
  validationResult req <> [] /\
  routeHandler buttonName req st =
    ({| status := 422; body := Json (validationResult req) |}, st) /\
  (~ acceptedSource (query_event req) ->
   ~ acceptedSource (body_event req) ->
   ~ acceptedToken (headers_event req) ->
   AlternativeError
     (eventChain InQuery (query_event req) ++
      eventChain InBody (body_event req) ++
      eventChain InHeaders (Str <$> headers_event req))
     ∈ validationResult req) /\
  (forall s, headers_battery req = Some s -> ~ integerInRange s ->
     FieldValidationError
       {| location := InHeaders; path := "button-battery-level";
          value := Some s |} ∈ validationResult req).
Proof.
  intros H.
  assert (validationResult req <> []) as Hne.
  { intros E. apply validationResult_nil in E as [E1 E2].
    destruct H as [(Hq & Hb & Hh) | (s & Es & Hs)].
    - destruct E1 as [? | [? | ?]]; contradiction.
    - apply Hs, E2, Es. }
  split; [exact Hne|]. split; [apply routeHandler_invalid; exact Hne|].
  split.
  - intros Hq Hb Hh. unfold validationResult.
    rewrite events_rejected by assumption. apply elem_of_app. left.
    apply list_elem_of_here.
  - intros s Es Hs. unfold validationResult. rewrite Es.
    rewrite battery_rejected by exact Hs. apply elem_of_app. right.
    apply list_elem_of_here.
Qed.

(** ** The registry: [discoverDevices] *)

Lemma touched_refl S l : touched S l l.
Proof. apply Forall2_same_length_lookup_2; [reflexivity|].
       intros i a b E1 E2. assert (a = b) as -> by congruence. auto. Qed.

Lemma touched_trans S l2 l1 l0 :
  touched S l2 l1 -> touched S l1 l0 -> touched S l2 l0.
Proof.
  unfold touched. intros H. revert l0.
  induction H as [|a b l2 l1 (Hu & Hd & He) _ IH]; intros l0 H0.
  - inversion H0. constructor.
  - inversion H0 as [|b' c ? l0' (Hu' & Hd' & He') H0']; subst.
    constructor; [|apply IH; exact H0'].
    split; [congruence|]. split; [congruence|].
    intros Hc. rewrite He by (rewrite Hu'; exact Hc). apply He', Hc.
Qed.

Lemma touched_mono S S' l l0 :
  (forall u, u ∈ S -> u ∈ S') -> touched S l l0 -> touched S' l l0.
Proof.
  intros HS H. unfold touched. eapply Forall2_impl; [exact H|].
  intros a b (Hu & Hd & He). repeat split; auto.
Qed.

Lemma cachedName_touched S l l0 u :
  touched S l l0 -> cachedName l u = cachedName l0 u.
Proof.
  unfold cachedName. induction 1 as [|a b l l0 (Hu & Hd & _) _ IH]; [reflexivity|].
  simpl. rewrite Hu. destruct (decide (UUID b = u)); simpl; [congruence|].
  destruct (list_find _ l) as [[]|], (list_find _ l0) as [[]|];
    simpl in *; congruence.
Qed.

Lemma cachedName_Some accs u d :
  cachedName accs u = Some d <-> exists i a,
    list_find (fun a => UUID a = u) accs = Some (i, a) /\ displayName a = d.
Proof.
  unfold cachedName. destruct (list_find _ accs) as [[i a]|]; simpl.
  - split; [intros [= <-]; eauto | intros (? & ? & [= <- <-] & <-); reflexivity].
  - split; [discriminate | intros (? & ? & [=] & _)].
Qed.

Lemma cachedName_None accs u :
  cachedName accs u = None <-> u ∉ UUID <$> accs.
Proof.
  unfold cachedName. rewrite fmap_None, list_find_None, Forall_forall.
  rewrite list_elem_of_fmap. split.
  - intros H (a & -> & Ha). exact (H a Ha eq_refl).
  - intros H a Ha E. apply H. exists a. auto.
Qed.

Lemma touched_insert S accs i a n :
  accs !! i = Some a -> UUID a ∈ S ->
  touched S (<[i := setContext n a]> accs) accs.
Proof.
  intros Hi Ha. apply Forall2_same_length_lookup_2; [apply length_insert|].
  intros j x y Hx Hy. destruct (decide (i = j)) as [->|Hne].
  - rewrite list_lookup_insert_eq in Hx by (eapply lookup_lt_Some; eauto).
    assert (y = a) as -> by congruence. injection Hx as <-.
    repeat split; simpl; auto. contradiction.
  - rewrite list_lookup_insert_ne in Hx by exact Hne.
    assert (x = y) as -> by congruence. auto.
Qed.

(** One iteration of the first loop, field by field. *)
Lemma discoverButton_spec (st : ButtonPlatform) (n : jsstring) :
  touched [generate n] (accessories (discoverButton st n)) (accessories st) /\
  accessoryHandlers (discoverButton st n) =
    <[generate n := newButtonPlatformAccessory (accessoryFor (accessories st) n)]>
      (accessoryHandlers st) /\
  api (discoverButton st n) = (api st ++ [callFor (accessories st) n])%list /\
  port (discoverButton st n) = port st /\
  buttons (discoverButton st n) = buttons st /\
  routes (discoverButton st n) = routes st /\
  log (discoverButton st n) = log st.
Proof.
  unfold discoverButton, callFor, accessoryFor, cachedName.
  destruct (list_find _ (accessories st)) as [[i a]|] eqn:E; simpl.
  - apply list_find_Some in E as (Hi & Hu & _).
    unfold setContext. rewrite Hu.
    repeat split; try reflexivity.
    replace {| displayName := displayName a; UUID := generate n;
               context := Some n |} with (setContext n a)
      by (unfold setContext; rewrite Hu; reflexivity).
    apply touched_insert; [exact Hi|]. rewrite Hu. apply list_elem_of_here.
  - repeat split; try reflexivity. apply touched_refl.
Qed.

Lemma discoverLoop_spec (names : list jsstring) :
  forall (st : ButtonPlatform) (accs0 : list PlatformAccessory) (S : list string),
    touched S (accessories st) accs0 ->
    (forall n, n ∈ names -> generate n ∈ S) ->
    touched S (accessories (foldl discoverButton st names)) accs0 /\
    accessoryHandlers (foldl discoverButton st names) =
      insertHandlers accs0 (accessoryHandlers st) names /\
    api (foldl discoverButton st names) =
      (api st ++ (callFor accs0 <$> names))%list /\
    port (foldl discoverButton st names) = port st /\
    buttons (foldl discoverButton st names) = buttons st /\
    routes (foldl discoverButton st names) = routes st /\
    log (foldl discoverButton st names) = log st.
Proof.
  induction names as [|n names IH]; intros st accs0 S Ht HS; simpl.
  - rewrite app_nil_r. repeat split; auto.
  - destruct (discoverButton_spec st n) as (T & Hh & Ha & Hp & Hb & Hr & Hl).
    assert (touched S (accessories (discoverButton st n)) accs0) as Ht'.
    { eapply touched_trans; [|exact Ht].
      eapply touched_mono; [|exact T].
      intros u Hu. apply list_elem_of_singleton in Hu as ->.
      apply HS, list_elem_of_here. }
    destruct (IH (discoverButton st n) accs0 S Ht') as (T' & Hh' & Ha' & Hp' & Hb' & Hr' & Hl').
    { intros m Hm. apply HS. apply list_elem_of_further, Hm. }
    split; [exact T'|].
    assert (cachedName (accessories st) (generate n) = cachedName accs0 (generate n)) as Ec
      by (eapply cachedName_touched; exact Ht).
    split; [|split; [|repeat split; congruence]].
    + rewrite Hh', Hh. unfold accessoryFor at 1. rewrite Ec. reflexivity.
    + rewrite Ha', Ha, <- app_assoc. simpl. unfold callFor at 1, accessoryFor at 1 2.
      rewrite Ec. reflexivity.
Qed.

Lemma removeLoop_spec (l : list PlatformAccessory) :
  forall st : ButtonPlatform,
    accessories (foldl removeAccessory st l) = accessories st /\
    accessoryHandlers (foldl removeAccessory st l) =
      deleteHandlers (accessoryHandlers st) l /\
    api (foldl removeAccessory st l) =
      (api st ++ (UnregisterPlatformAccessories <$> l))%list /\
    port (foldl removeAccessory st l) = port st /\
    buttons (foldl removeAccessory st l) = buttons st /\
    routes (foldl removeAccessory st l) = routes st /\
    log (foldl removeAccessory st l) = log st.
Proof.
  induction l as [|a l IH]; intros st; simpl.
  - rewrite app_nil_r. repeat split.
  - destruct (IH (removeAccessory st a)) as (H1 & H2 & H3 & H4 & H5 & H6 & H7).
    rewrite H1, H2, H3, H4, H5, H6, H7. simpl. rewrite <- app_assoc.
    repeat split.
Qed.

Lemma stale_touched (names : list jsstring) l l0 :
  touched (generate <$> names) l l0 -> stale names l = stale names l0.
Proof.
  unfold stale. induction 1 as [|a b l l0 (Hu & _ & He) _ IH]; [reflexivity|].
  rewrite !filter_cons, IH, Hu.
  destruct (decide (UUID b ∉ generate <$> names)) as [Hn|Hn]; [|reflexivity].
  rewrite (He Hn). reflexivity.
Qed.

(** [discoverDevices], field by field. *)
Lemma discoverDevices_spec (st : ButtonPlatform) :
  touched (generate <$> buttons st) (accessories (discoverDevices st))
          (accessories st) /\
  accessoryHandlers (discoverDevices st) =
    deleteHandlers
      (insertHandlers (accessories st) (accessoryHandlers st) (buttons st))
      (stale (buttons st) (accessories st)) /\
  api (discoverDevices st) =
    (api st ++ (callFor (accessories st) <$> buttons st)
       ++ (UnregisterPlatformAccessories <$> stale (buttons st) (accessories st)))%list /\
  port (discoverDevices st) = port st /\
  buttons (discoverDevices st) = buttons st /\
  routes (discoverDevices st) = routes st /\
  log (discoverDevices st) = log st.
Proof.
  unfold discoverDevices.
  destruct (discoverLoop_spec (buttons st) st (accessories st)
              (generate <$> buttons st) (touched_refl _ _))
    as (T & Hh & Ha & Hp & Hb & Hr & Hl).
  { intros n Hn. apply list_elem_of_fmap. exists n. auto. }
  rewrite Hb. fold (stale (buttons st) (accessories (foldl discoverButton st (buttons st)))).
  rewrite (stale_touched _ _ _ T).
  destruct (removeLoop_spec (stale (buttons st) (accessories st))
              (foldl discoverButton st (buttons st)))
    as (H1 & H2 & H3 & H4 & H5 & H6 & H7).
  rewrite H1, H2, H3, H4, H5, H6, H7, Hh, Ha, <- app_assoc.
  repeat split; auto.
Qed.

Lemma setupLoop_spec (names : list jsstring) :
  forall st : ButtonPlatform,
    foldl setupRoute st names =
      mkPlatform (accessories st) (accessoryHandlers st) (port st) (buttons st)
        (api st)
        (routes st ++ ((fun n => {| uri := generateButtonUri n; routeButton := n |})
                         <$> names))%list
        (log st).
Proof.
  induction names as [|n names IH]; intros st; simpl.
  - rewrite app_nil_r. destruct st; reflexivity.
  - rewrite IH. simpl. rewrite <- app_assoc. reflexivity.
Qed.

Lemma configureLoop_spec (persisted : list PlatformAccessory) :
  forall st : ButtonPlatform,
    foldl configureAccessory st persisted =
      with_accessories (accessories st ++ persisted)%list st.
Proof.
  induction persisted as [|a l IH]; intros st; simpl.
  - rewrite app_nil_r. destruct st; reflexivity.
  - rewrite IH. unfold configureAccessory, with_accessories. simpl.
    rewrite <- app_assoc. reflexivity.
Qed.

(** The platform after a start-up, field by field. *)
Lemma startup_spec (config : ButtonConfig) (persisted : list PlatformAccessory) :
  let names := default [] (config_buttons config) in
  touched (generate <$> names) (accessories (startup config persisted)) persisted /\
  accessoryHandlers (startup config persisted) =
    deleteHandlers (insertHandlers persisted ∅ names) (stale names persisted) /\
  api (startup config persisted) =
    ((callFor persisted <$> names)
       ++ (UnregisterPlatformAccessories <$> stale names persisted))%list /\
  buttons (startup config persisted) = names /\
  routes (startup config persisted) =
    ((fun n => {| uri := generateButtonUri n; routeButton := n |}) <$> names) /\
  log (startup config persisted) = [].
Proof.
  intros names. unfold startup, didFinishLaunching, setupExpressServer.
  rewrite setupLoop_spec. simpl. rewrite configureLoop_spec.
  destruct (discoverDevices_spec
              (with_accessories ([] ++ persisted)%list (newButtonPlatform config)))
    as (T & Hh & Ha & Hp & Hb & Hr & Hl).
  simpl in *. rewrite Hh, Ha, Hb, Hr, Hl. repeat split; auto.
Qed.

Lemma lookup_insertHandlers accs (names : list jsstring) :
  forall (m : gmap string ButtonPlatformAccessory) (u : string),
    insertHandlers accs m names !! u =
      match last (filter (fun n => generate n = u) names) with
      | Some n => Some (newButtonPlatformAccessory (accessoryFor accs n))
      | None => m !! u
      end.
Proof.
  unfold insertHandlers.
  induction names as [|n names IH]; intros m u; simpl; [reflexivity|].
  rewrite IH, filter_cons. destruct (decide (generate n = u)) as [E|E].
  - rewrite last_cons.
    destruct (last (filter _ names)); [reflexivity|].
    rewrite E. apply lookup_insert_eq.
  - destruct (last (filter _ names)); [reflexivity|].
    apply lookup_insert_ne, E.
Qed.

Lemma lookup_deleteHandlers (l : list PlatformAccessory) :
  forall (m : gmap string ButtonPlatformAccessory) (u : string),
    deleteHandlers m l !! u =
      if decide (u ∈ UUID <$> l) then None else m !! u.
Proof.
  unfold deleteHandlers.
  induction l as [|a l IH]; intros m u; simpl; [reflexivity|].
  rewrite IH. destruct (decide (u ∈ UUID <$> l)) as [H|H].
  - rewrite decide_True by (apply list_elem_of_further, H). reflexivity.
  - destruct (decide (UUID a = u)) as [E|E].
    + rewrite decide_True by (rewrite E; apply list_elem_of_here).
      rewrite <- E. apply lookup_delete_eq.
    + rewrite decide_False
        by (rewrite elem_of_cons; intros [?|?]; [congruence|contradiction]).
      apply lookup_delete_ne, E.
Qed.

Lemma elem_of_stale (names : list jsstring) accs a :
  a ∈ stale names accs <-> (UUID a ∉ generate <$> names) /\ a ∈ accs.
Proof. unfold stale. rewrite list_elem_of_filter. reflexivity. Qed.

Lemma last_configured (names : list jsstring) (u : string) :
  (exists n, last (filter (fun n => generate n = u) names) = Some n /\
             n ∈ names /\ generate n = u) \/
  (last (filter (fun n => generate n = u) names) = None /\
   u ∉ generate <$> names).
Proof.
  destruct (last (filter _ names)) as [n|] eqn:E.
  - left. exists n. split; [reflexivity|].
    apply last_Some_elem_of, list_elem_of_filter in E. tauto.
  - right. split; [reflexivity|]. apply last_None in E.
    intros (n & -> & Hn)%list_elem_of_fmap.
    assert (n ∈ filter (fun m => generate m = generate n) names) as H
      by (apply list_elem_of_filter; auto).
    rewrite E in H. inversion H.
Qed.

(** The index after a start-up: at an identifier, the handler of the last
    configured name that has it. *)
Lemma startup_lookup (config : ButtonConfig) (persisted : list PlatformAccessory)
    (u : string) :
  accessoryHandlers (startup config persisted) !! u =
    (fun n => newButtonPlatformAccessory (accessoryFor persisted n)) <$>
    last (filter (fun n => generate n = u) (default [] (config_buttons config))).
Proof.
  destruct (startup_spec config persisted) as (_ & -> & _).
  rewrite lookup_deleteHandlers, lookup_insertHandlers, lookup_empty.
  destruct (decide _) as [H|H].
  - apply list_elem_of_fmap in H as (a & -> & Ha). apply elem_of_stale in Ha as [Ha _].
    destruct (last_configured (default [] (config_buttons config)) (UUID a))
      as [(n & _ & Hn & E) | [-> _]]; [|reflexivity].
    exfalso. apply Ha. rewrite <- E. apply list_elem_of_fmap. eauto.
  - destruct (last _); reflexivity.
Qed.

(** After a start-up the index has an entry at an identifier exactly when
    a configured name has that identifier. *)
Lemma startup_index_domain (config : ButtonConfig)
    (persisted : list PlatformAccessory) (u : string) :
  is_Some (accessoryHandlers (startup config persisted) !! u) <->
  u ∈ generate <$> default [] (config_buttons config).
Proof.
  rewrite startup_lookup.
  destruct (last_configured (default [] (config_buttons config)) u)
    as [(n & -> & Hn & E) | [-> H]]; simpl.
  - split; [|eauto]. intros _. rewrite <- E. apply list_elem_of_fmap. eauto.
  - split; [intros [? [=]] | contradiction].
Qed.

Lemma discoverButton_found (st : ButtonPlatform) (n : jsstring) i a :
  list_find (fun a => UUID a = generate n) (accessories st) = Some (i, a) ->
  discoverButton st n =
    mkPlatform (<[i := setContext n a]> (accessories st))
      (<[generate n := newButtonPlatformAccessory (setContext n a)]>
         (accessoryHandlers st))
      (port st) (buttons st)
      (api st ++ [UpdatePlatformAccessories (setContext n a)])%list
      (routes st) (log st).
Proof. intros E. unfold discoverButton. rewrite E. reflexivity. Qed.

Lemma discoverButton_new (st : ButtonPlatform) (n : jsstring) :
  list_find (fun a => UUID a = generate n) (accessories st) = None ->
  discoverButton st n =
    mkPlatform (accessories st)
      (<[generate n := newButtonPlatformAccessory
                         (mkAccessory n (generate n) (Some n))]>
         (accessoryHandlers st))
      (port st) (buttons st)
      (api st ++ [RegisterPlatformAccessories
                    (mkAccessory n (generate n) (Some n))])%list
      (routes st) (log st).
Proof. intros E. unfold discoverButton. rewrite E. reflexivity. Qed.

Lemma list_find_cons_eq {A} (P : A -> Prop) `{forall x, Decision (P x)} x l :
  list_find P (x :: l) =
    if decide (P x) then Some (0%nat, x) else prod_map S id <$> list_find P l.
Proof. reflexivity. Qed.

Ltac find_step :=
  repeat (rewrite list_find_cons_eq;
          first [ rewrite decide_True by (simpl; congruence)
                | rewrite decide_False by (simpl; congruence) ]);
  simpl; reflexivity.

Ltac discover_step :=
  match goal with
  | |- context [discoverButton ?s ?n] =>
      lazymatch s with
      | context [discoverButton] => fail
      | _ =>
          first [ erewrite (discoverButton_found s n)
                    by (cbn [accessories with_accessories]; find_step)
                | rewrite (discoverButton_new s n)
                    by (cbn [accessories with_accessories]; find_step) ]
      end
  end;
  cbn [accessories accessoryHandlers port buttons api routes log
       with_accessories newButtonPlatform insert list_insert setContext
       displayName UUID context app default config_port config_buttons].

Ltac solve_elem :=
  simpl; rewrite ?elem_of_cons, ?elem_of_nil; intuition congruence.

Ltac filter_step :=
  repeat (rewrite filter_cons;
          first [ rewrite decide_True by solve_elem
                | rewrite decide_False by solve_elem ]);
  rewrite ?filter_nil.

(** C4: with the persisted set {A, B} and the configured names {B, C},
    of pairwise distinct identifiers, a start-up restores exactly B, whose
    context becomes the current name, in place; adds exactly C, which is
    registered with the framework; removes exactly A, which is
    unregistered and has no handler; the index then holds the handlers of
    B and C and nothing else, and the persisted set is {B, C}. In general
    the index after a start-up has an entry at an identifier exactly when
    a configured name has it. *)
Theorem reconcile_AB_BC (A B C dA dB : jsstring) (cA cB : option jsstring)
    (p : option number) (persisted : list PlatformAccessory)
    (names : list jsstring) :
  generate A <> generate B -> generate A <> generate C ->
  generate B <> generate C ->
  let accA := mkAccessory dA (generate A) cA in
  let accB := mkAccessory dB (generate B) cB in
  let accB' := mkAccessory dB (generate B) (Some B) in
  let accC := mkAccessory C (generate C) (Some C) in
  persisted ≡ₚ [accA; accB] ->
  names ≡ₚ [B; C] ->
  let st := startup {| config_port := p; config_buttons := Some names |}
                    persisted in
  restored st = [accB'] /\
  added st = [accC] /\
  removed st = [accA] /\
  accessories st ≡ₚ [accA; accB'] /\
  accessoryHandlers st =
    {[ generate B := newButtonPlatformAccessory accB';
       generate C := newButtonPlatformAccessory accC ]} /\
  accessoryHandlers st !! generate A = None /\
  persistedAfter st = [accB'; accC] /\
  (forall u, is_Some (accessoryHandlers st !! u) <-> u ∈ generate <$> names).
Proof.
  intros HAB HAC HBC accA accB accB' accC Hp Hn st.
  assert (forall u, is_Some (accessoryHandlers st !! u) <-> u ∈ generate <$> names)
    as Hdom
    by (intros u;
        exact (startup_index_domain
                 {| config_port := p; config_buttons := Some names |}
                 persisted u)).
  symmetry in Hp, Hn.
  apply Permutation_length_2_inv in Hp, Hn.
  assert (accessoryHandlers st !! generate A = None) as HA.
  { apply eq_None_not_Some. rewrite Hdom.
    destruct Hn as [-> | ->]; solve_elem. }
  cut (restored st = [accB'] /\ added st = [accC] /\ removed st = [accA] /\
       accessories st ≡ₚ [accA; accB'] /\
       accessoryHandlers st =
         {[ generate B := newButtonPlatformAccessory accB';
            generate C := newButtonPlatformAccessory accC ]} /\
       persistedAfter st = [accB'; accC]).
  { intros (H1 & H2 & H3 & H4 & H5 & H6). repeat split; auto; apply Hdom. }
  clear HA Hdom. unfold st, startup, didFinishLaunching, setupExpressServer.
  rewrite setupLoop_spec, configureLoop_spec. unfold discoverDevices.
  destruct Hp as [-> | ->], Hn as [-> | ->]; simpl.
  all: do 2 discover_step; filter_step; simpl.
  all: split; [reflexivity|]; split; [reflexivity|]; split; [reflexivity|].
  all: split; [first [reflexivity | apply perm_swap]|].
  all: split;
    [ apply map_eq; intros u;
      rewrite ?lookup_delete, ?lookup_insert, ?lookup_singleton, ?lookup_empty;
      repeat case_decide; subst; solve [congruence | reflexivity]
    | unfold persistedAfter; simpl; filter_step; reflexivity ].
Qed.




(** *** The persisted set after a start-up *)

Lemma cachedName_cons a l u :
  cachedName (a :: l) u =
    if decide (UUID a = u) then Some (displayName a) else cachedName l u.
Proof.
  unfold cachedName. rewrite list_find_cons_eq.
  destruct (decide (UUID a = u)); [reflexivity|].
  destruct (list_find _ l) as [[]|]; reflexivity.
Qed.

Lemma cachedName_app l1 l2 u :
  cachedName (l1 ++ l2) u =
    match cachedName l1 u with
    | Some d => Some d
    | None => cachedName l2 u
    end.
Proof.
  induction l1 as [|a l1 IH]; [reflexivity|].
  rewrite <- app_comm_cons, !cachedName_cons, IH.
  destruct (decide (UUID a = u)); reflexivity.
Qed.

Lemma cachedName_filter (Q : string -> Prop) `{forall u, Decision (Q u)} l u :
  Q u -> cachedName (filter (fun a => Q (UUID a)) l) u = cachedName l u.
Proof.
  intros Hu. induction l as [|a l IH]; [reflexivity|].
  rewrite filter_cons. destruct (decide (Q (UUID a))) as [Ha|Ha].
  - rewrite !cachedName_cons, IH. reflexivity.
  - rewrite cachedName_cons, IH.
    rewrite decide_False by (intros E; apply Ha; rewrite E; exact Hu).
    reflexivity.
Qed.

Lemma filter_none {A} (Q : A -> Prop) `{forall x, Decision (Q x)} (l : list A) :
  (forall x, x ∈ l -> ~ Q x) -> filter Q l = [].
Proof.
  induction l as [|x l IH]; intros Hl; [reflexivity|].
  rewrite filter_cons, decide_False by (apply Hl, list_elem_of_here).
  apply IH. intros y Hy. apply Hl, list_elem_of_further, Hy.
Qed.

Lemma filter_all {A} (Q : A -> Prop) `{forall x, Decision (Q x)} (l : list A) :
  (forall x, x ∈ l -> Q x) -> filter Q l = l.
Proof.
  induction l as [|x l IH]; intros Hl; [reflexivity|].
  rewrite filter_cons, decide_True by (apply Hl, list_elem_of_here).
  f_equal. apply IH. intros y Hy. apply Hl, list_elem_of_further, Hy.
Qed.

Lemma applyCall_discovered accs (names : list jsstring) :
  forall store,
    foldl applyCall store (callFor accs <$> names) =
      (store ++ newOnes accs names)%list.
Proof.
  unfold newOnes.
  induction names as [|n names IH]; intros store; simpl.
  - rewrite app_nil_r. reflexivity.
  - rewrite IH. unfold callFor at 1.
    destruct (cachedName accs (generate n)); simpl; [reflexivity|].
    rewrite <- app_assoc. reflexivity.
Qed.

Lemma applyCall_removed (l : list PlatformAccessory) :
  forall store,
    foldl applyCall store (UnregisterPlatformAccessories <$> l) =
      filter (fun b => UUID b ∉ UUID <$> l) store.
Proof.
  induction l as [|a l IH]; intros store; simpl.
  - symmetry. apply filter_all. intros x _. apply not_elem_of_nil.
  - rewrite IH. clear IH.
    induction store as [|b store IH]; [reflexivity|].
    rewrite !(filter_cons _ b).
    destruct (decide (UUID b ≠ UUID a)) as [Hne|He].
    + rewrite filter_cons.
      destruct (decide (UUID b ∉ UUID <$> l)) as [Hn|Hn].
      * rewrite decide_True
          by (rewrite not_elem_of_cons; split; assumption).
        rewrite IH. reflexivity.
      * rewrite decide_False
          by (rewrite not_elem_of_cons; intros [_ ?]; contradiction).
        exact IH.
    + rewrite decide_False
        by (rewrite not_elem_of_cons; intros [? _]; contradiction).
      exact IH.
Qed.

(** The persisted set after a start-up: the cached accessories that are
    not stale, followed by the registered ones. *)
Lemma persistedAfter_startup (config : ButtonConfig)
    (persisted : list PlatformAccessory) :
  let names := default [] (config_buttons config) in
  persistedAfter (startup config persisted) =
    filter (fun b => UUID b ∉ UUID <$> stale names persisted)
           (accessories (startup config persisted) ++ newOnes persisted names)%list.
Proof.
  intros names. unfold persistedAfter.
  destruct (startup_spec config persisted) as (_ & _ & -> & _).
  rewrite foldl_app, applyCall_discovered, applyCall_removed. reflexivity.
Qed.

Lemma touched_uuids S l l0 : touched S l l0 -> UUID <$> l = UUID <$> l0.
Proof.
  induction 1 as [|a b l l0 (Hu & _) _ IH]; [reflexivity|].
  rewrite !fmap_cons, Hu, IH. reflexivity.
Qed.

Lemma elem_of_newOnes accs (names : list jsstring) a :
  a ∈ newOnes accs names <->
  exists n, n ∈ names /\ cachedName accs (generate n) = None /\
            a = accessoryFor accs n.
Proof.
  unfold newOnes. rewrite list_elem_of_omap. split.
  - intros (n & Hn & E). exists n. split; [exact Hn|].
    destruct (cachedName accs (generate n)); [discriminate|].
    injection E as <-. auto.
  - intros (n & Hn & E & ->). exists n. split; [exact Hn|].
    rewrite E. reflexivity.
Qed.

Lemma configured_not_stale (names : list jsstring) accs u :
  u ∈ generate <$> names -> u ∉ UUID <$> stale names accs.
Proof.
  intros Hu (a & -> & Ha)%list_elem_of_fmap.
  apply elem_of_stale in Ha as [Ha _]. contradiction.
Qed.

Lemma cachedName_persistedAfter (config : ButtonConfig)
    (persisted : list PlatformAccessory) (u : string) :
  let names := default [] (config_buttons config) in
  u ∈ generate <$> names ->
  cachedName (persistedAfter (startup config persisted)) u =
    match cachedName persisted u with
    | Some d => Some d
    | None => cachedName (newOnes persisted names) u
    end.
Proof.
  intros names Hu. rewrite persistedAfter_startup. fold names.
  pose proof (cachedName_filter (fun u => u ∉ UUID <$> stale names persisted)
                (accessories (startup config persisted)
                   ++ newOnes persisted names)%list u
                (configured_not_stale names persisted u Hu)) as E.
  cbv beta in E. rewrite E. clear E.
  rewrite cachedName_app.
  destruct (startup_spec config persisted) as (T & _).
  rewrite (cachedName_touched _ _ _ u T). reflexivity.
Qed.

(** Every persisted accessory left by a start-up has the identifier of a
    configured name. *)
Lemma persistedAfter_configured (config : ButtonConfig)
    (persisted : list PlatformAccessory) (a : PlatformAccessory) :
  a ∈ persistedAfter (startup config persisted) ->
  UUID a ∈ generate <$> default [] (config_buttons config).
Proof.
  rewrite persistedAfter_startup, list_elem_of_filter, elem_of_app.
  intros [Hq [Ha | Ha]].
  - destruct (decide (UUID a ∈ generate <$> default [] (config_buttons config)))
      as [H|H]; [exact H|].
    exfalso. apply Hq.
    destruct (startup_spec config persisted) as (T & _).
    assert (UUID a ∈ UUID <$> persisted) as Hin.
    { rewrite <- (touched_uuids _ _ _ T). apply list_elem_of_fmap. eauto. }
    apply list_elem_of_fmap in Hin as (a0 & E & Ha0).
    apply list_elem_of_fmap. exists a0. split; [exact E|].
    apply elem_of_stale. rewrite <- E. auto.
  - apply elem_of_newOnes in Ha as (n & Hn & _ & ->). simpl.
    apply list_elem_of_fmap. eauto.
Qed.

(** Every configured name has a persisted accessory after a start-up. *)
Lemma persistedAfter_cached (config : ButtonConfig)
    (persisted : list PlatformAccessory) (n : jsstring) :
  n ∈ default [] (config_buttons config) ->
  is_Some (cachedName (persistedAfter (startup config persisted)) (generate n)).
Proof.
  intros Hn. rewrite cachedName_persistedAfter
    by (apply list_elem_of_fmap; eauto).
  destruct (cachedName persisted (generate n)) eqn:E; [eauto|].
  apply not_eq_None_Some. rewrite cachedName_None.
  intros H. apply H, list_elem_of_fmap. exists (accessoryFor persisted n).
  split; [reflexivity|]. apply elem_of_newOnes. eauto.
Qed.

(** With distinct identifiers, a name finds after a start-up an accessory
    of the display name it had or was given. *)
Lemma persistedAfter_name (config : ButtonConfig)
    (persisted : list PlatformAccessory) (n : jsstring) :
  distinctIdentifiers (default [] (config_buttons config)) ->
  n ∈ default [] (config_buttons config) ->
  default n (cachedName (persistedAfter (startup config persisted)) (generate n)) =
  default n (cachedName persisted (generate n)).
Proof.
  intros Hd Hn. rewrite cachedName_persistedAfter
    by (apply list_elem_of_fmap; eauto).
  destruct (cachedName persisted (generate n)) eqn:E; [reflexivity|].
  destruct (cachedName (newOnes persisted _) (generate n)) as [d|] eqn:E';
    [|reflexivity].
  apply cachedName_Some in E' as (i & a & Hf & <-).
  apply list_find_Some in Hf as (Hi & Hu & _).
  apply list_elem_of_lookup_2, elem_of_newOnes in Hi as (m & Hm & Em & ->).
  simpl in *. rewrite Em. simpl. apply Hd; auto.
Qed.

Lemma added_discovered accs (names : list jsstring)
    (l : list PlatformAccessory) :
  (forall n, n ∈ names -> is_Some (cachedName accs (generate n))) ->
  omap (fun c => match c with
                 | RegisterPlatformAccessories a => Some a
                 | _ => None
                 end)
       ((callFor accs <$> names) ++ (UnregisterPlatformAccessories <$> l))%list = [].
Proof.
  intros H. rewrite omap_app.
  assert (forall l : list PlatformAccessory,
            omap (fun c => match c with
                           | RegisterPlatformAccessories a => Some a
                           | _ => None
                           end) (UnregisterPlatformAccessories <$> l) = []) as ->
    by (intros l'; induction l'; [reflexivity | assumption]).
  rewrite app_nil_r.
  induction names as [|n names IH]; [reflexivity|].
  simpl. unfold callFor at 1.
  destruct (H n (list_elem_of_here _ _)) as [d ->]. simpl.
  apply IH. intros m Hm. apply H, list_elem_of_further, Hm.
Qed.

Lemma removed_discovered accs (names : list jsstring)
    (l : list PlatformAccessory) :
  omap (fun c => match c with
                 | UnregisterPlatformAccessories a => Some a
                 | _ => None
                 end)
       ((callFor accs <$> names) ++ (UnregisterPlatformAccessories <$> l))%list = l.
Proof.
  rewrite omap_app.
  assert (omap (fun c => match c with
                         | UnregisterPlatformAccessories a => Some a
                         | _ => None
                         end) (callFor accs <$> names) = []) as ->.
  { induction names as [|n names IH]; [reflexivity|].
    simpl. unfold callFor at 1.
    destruct (cachedName accs (generate n)); exact IH. }
  simpl. induction l as [|a l IH]; [reflexivity|].
  simpl. f_equal. exact IH.
Qed.

(** Within one process the list [this.accessories] is only ever filled by
    [configureAccessory]: [discoverDevices] leaves its identifiers as they
    were, so a second call made without the framework handing over the
    persisted set finds the same names missing and registers them again. *)
Lemma discoverDevices_again (st : ButtonPlatform) (n : jsstring) :
  n ∈ buttons st ->
  generate n ∉ UUID <$> accessories st ->
  RegisterPlatformAccessories (mkAccessory n (generate n) (Some n))
    ∈ drop (length (api (discoverDevices st)))
           (api (discoverDevices (discoverDevices st))).
Proof.
  intros Hn Hc.
  destruct (discoverDevices_spec st) as (T & _ & _ & _ & Hb & _).
  destruct (discoverDevices_spec (discoverDevices st)) as (_ & _ & -> & _).
  rewrite drop_app_length, Hb. apply elem_of_app. left.
  apply list_elem_of_fmap. exists n. split; [|exact Hn].
  unfold callFor, accessoryFor.
  rewrite (proj2 (cachedName_None _ _));
    [reflexivity | rewrite (touched_uuids _ _ _ T); exact Hc].
Qed.

(** C3: a second start-up with the same configuration, on the persisted
    set the first one left, registers nothing and unregisters nothing,
    and its index has the same identifiers as the first; when the
    configured names have distinct identifiers the two indexes are equal,
    handler for handler. *)
Theorem reconcile_idempotent (config : ButtonConfig)
    (persisted : list PlatformAccessory) :
  let first := startup config persisted in
  let second := startup config (persistedAfter first) in
  added second = [] /\
  removed second = [] /\
  dom (accessoryHandlers second) = dom (accessoryHandlers first) /\
  (distinctIdentifiers (default [] (config_buttons config)) ->
   accessoryHandlers second = accessoryHandlers first).
Proof.
  intros first second. unfold added, removed.
  destruct (startup_spec config (persistedAfter first)) as (_ & _ & Ha & _).
  fold second in Ha. rewrite Ha. split; [|split; [|split]].
  - apply added_discovered. intros n Hn. apply persistedAfter_cached, Hn.
  - rewrite removed_discovered. apply filter_none.
    intros a Ha' Hs. apply Hs.
    apply (persistedAfter_configured config persisted), Ha'.
  - apply set_eq. intros u. rewrite !elem_of_dom.
    unfold second, first. rewrite !startup_index_domain. reflexivity.
  - intros Hd. apply map_eq. intros u. unfold second, first.
    rewrite !startup_lookup.
    destruct (last_configured (default [] (config_buttons config)) u)
      as [(n & -> & Hn & E) | [-> _]]; [|reflexivity].
    simpl. unfold accessoryFor. rewrite persistedAfter_name by assumption.
    reflexivity.
Qed.

(** ** Requests on a configured route *)

Lemma find_uuid_None accs u :
  u ∉ UUID <$> accs ->
  List.find (fun acc => bool_decide (UUID acc = u)) accs = None.
Proof.
  induction accs as [|a accs IH]; intros H; [reflexivity|].
  rewrite fmap_cons, not_elem_of_cons in H. destruct H as [H1 H2].
  simpl. rewrite bool_decide_eq_false_2 by congruence. apply IH, H2.
Qed.

Lemma find_uuid_Some accs u :
  u ∈ UUID <$> accs ->
  exists a, List.find (fun acc => bool_decide (UUID acc = u)) accs = Some a.
Proof.
  induction accs as [|a accs IH]; intros H; [inversion H|].
  simpl. destruct (bool_decide_reflect (UUID a = u)) as [E|E]; [eauto|].
  apply IH. rewrite fmap_cons, elem_of_cons in H.
  destruct H as [H|H]; [congruence | exact H].
Qed.

Lemma routeHandler_valid (buttonName : jsstring) (req : Request)
    (st : ButtonPlatform) :
  validationResult req = [] ->
  routeHandler buttonName req st =
    match List.find (fun acc => bool_decide (UUID acc = generate buttonName))
                    (accessories st) with
    | None =>
        ({| status := 404; body := Text "Button not found." |},
         logError [AccessoryNotFound buttonName] st)
    | Some _ =>
        match accessoryHandlers st !! generate buttonName with
        | None =>
            ({| status := 500; body := Text "Server error." |},
             logError [HandlerNotFound buttonName] st)
        | Some buttonAccessory =>
            ({| status := 200; body := Text "OK" |},
             logError
               (snd (triggerEvent (requestEvent req) (requestBattery req)
                                  buttonAccessory))
               (with_accessoryHandlers
                  (<[generate buttonName :=
                       fst (triggerEvent (requestEvent req) (requestBattery req)
                                         buttonAccessory)]>
                     (accessoryHandlers st)) st))
        end
    end.
Proof.
  intros H. unfold routeHandler. rewrite H. simpl.
  destruct (List.find _ _); [|reflexivity].
  destruct (accessoryHandlers st !! generate buttonName); [|reflexivity].
  destruct (triggerEvent _ _ _). reflexivity.
Qed.

(** A device restored from the cache is found by its route. *)
Lemma restored_device_found (config : ButtonConfig)
    (persisted : list PlatformAccessory) (n : jsstring) (req : Request) :
  n ∈ default [] (config_buttons config) ->
  validationResult req = [] ->
  generate n ∈ UUID <$> persisted ->
  status (fst (routeHandler n req (startup config persisted))) = 200.
Proof.
  intros Hn Hv Hc. rewrite routeHandler_valid by exact Hv.
  destruct (startup_spec config persisted) as (T & _).
  rewrite <- (touched_uuids _ _ _ T) in Hc.
  destruct (find_uuid_Some _ _ Hc) as [a ->].
  destruct (proj2 (startup_index_domain config persisted (generate n)))
    as [h ->]; [|reflexivity].
  apply list_elem_of_fmap. eauto.
Qed.

(** C2, on the code: for a configured name with no cached accessory the
    start-up registers a new accessory and builds its handler, but the
    accessory never joins [this.accessories], so a valid request to its
    route is answered 404 "Button not found." and nothing is triggered. *)
Theorem new_device_not_found (config : ButtonConfig)
    (persisted : list PlatformAccessory) (n : jsstring) (req : Request) :
  n ∈ default [] (config_buttons config) ->
  validationResult req = [] ->
  generate n ∉ UUID <$> persisted ->
  let st := startup config persisted in
  RegisterPlatformAccessories (mkAccessory n (generate n) (Some n)) ∈ api st /\
  is_Some (accessoryHandlers st !! generate n) /\
  routeHandler n req st =
    ({| status := 404; body := Text "Button not found." |},
     logError [AccessoryNotFound n] st).
Proof.
  intros Hn Hv Hc st.
  destruct (startup_spec config persisted) as (T & _ & Ha & _).
  assert (cachedName persisted (generate n) = None) as Ec
    by (apply cachedName_None, Hc).
  split; [|split].
  - unfold st. rewrite Ha. apply elem_of_app. left.
    apply list_elem_of_fmap. exists n. split; [|exact Hn].
    unfold callFor, accessoryFor. rewrite Ec. reflexivity.
  - apply startup_index_domain, list_elem_of_fmap. eauto.
  - rewrite routeHandler_valid by exact Hv.
    rewrite find_uuid_None; [reflexivity|].
    unfold st. rewrite (touched_uuids _ _ _ T). exact Hc.
Qed.


(** The event handed to [triggerEvent] is the one of the first source that
    is present: query string, else body, else header. *)
Lemma requestEvent_precedence (req : Request) :
  requestEvent req =
    match query_event req, body_event req with
    | Some e, _ => asString e
    | None, Some e => asString e
    | None, None => headers_event req
    end.
Proof.
  unfold requestEvent, eventSource, coalesce.
  destruct (query_event req), (body_event req), (headers_event req);
    reflexivity.
Qed.

(** The level a valid request hands to [triggerEvent] is an integer between
    0 and 100. *)
Lemma requestBattery_in_range (req : Request) (x : number) :
  validationResult req = [] ->
  requestBattery req = Some x ->
  exists v, x = int v /\ 0 <= v <= 100.
Proof.
  intros Hv Hx. apply validationResult_nil in Hv as [_ Hb].
  unfold requestBattery in Hx.
  destruct (headers_battery req) as [s|]; [|discriminate].
  destruct (Hb s eq_refl) as (v & Ev & Hr).
  destruct (bool_decide (s = "")); [discriminate|].
  injection Hx as <-. exists v. unfold Number. rewrite Ev. auto.
Qed.

(** A valid request whose first present source holds an accepted token
    sends exactly one notification, of the classified event. *)
Lemma valid_request_notifies (n : jsstring) (req : Request) (st : ButtonPlatform)
    (a : PlatformAccessory) (h : ButtonPlatformAccessory)
    (e : ProgrammableSwitchEvent) :
  validationResult req = [] ->
  List.find (fun acc => bool_decide (UUID acc = generate n)) (accessories st)
    = Some a ->
  accessoryHandlers st !! generate n = Some h ->
  requestEvent req ≫= classify = Some e ->
  exists h',
    routeHandler n req st =
      ({| status := 200; body := Text "OK" |},
       with_accessoryHandlers (<[generate n := h']> (accessoryHandlers st)) st) /\
    notifications h' = (notifications h ++ [e])%list.
Proof.
  intros Hv Hf Hh He. rewrite routeHandler_valid by exact Hv.
  rewrite Hf, Hh. unfold triggerEvent. rewrite He. cbn [fst snd].
  eexists. split.
  - unfold logError. simpl. rewrite app_nil_r. destruct st; reflexivity.
  - unfold notifications. cbn [hap]. rewrite omap_app. simpl. f_equal.
    destruct (requestBattery req); [apply notifications_updateBattery | reflexivity].
Qed.

(** C1, on the code: a request whose query string holds "bogus" and whose
    body holds "click" passes validation, because one source is enough
    for [oneOf]; the event read is the one of the query string, "bogus";
    the answer is 200 "OK", the unknown event is logged, and the handler
    is left as it was, without any notification. *)
Theorem conflicting_sources_accepted (n : jsstring) (st : ButtonPlatform)
    (a : PlatformAccessory) (h : ButtonPlatformAccessory) :
  List.find (fun acc => bool_decide (UUID acc = generate n)) (accessories st)
    = Some a ->
  accessoryHandlers st !! generate n = Some h ->
  requestEvent conflictingRequest = Some "bogus" /\
  ~ acceptedToken (Some "bogus") /\
  validationResult conflictingRequest = [] /\
  exists st',
    routeHandler n conflictingRequest st =
      ({| status := 200; body := Text "OK" |}, st') /\
    accessoryHandlers st' = accessoryHandlers st /\
    accessories st' = accessories st /\
    api st' = api st /\
    log st' = (log st ++ [UnknownEventType (Some "bogus")])%list.
Proof.
  intros Hf Hh. split; [reflexivity|]. split; [|split; [reflexivity|]].
  - intros H. apply isIn_accepted in H. discriminate H.
  - rewrite routeHandler_valid by reflexivity. rewrite Hf, Hh.
    eexists. split; [reflexivity|]. simpl.
    split; [apply insert_id, Hh|]. repeat split.
Qed.

(** C8, on the code: a request whose only event source is the body, holding
    the array ["click"], and whose battery header is "5", holds an accepted
    token in no source, yet passes validation, because the validator checks
    an array element by element; the answer is 200 "OK", not 422, and the
    handler is mutated: its battery level becomes 5 and the two battery
    characteristics are pushed. The array is no string, so the event is
    logged as unknown and no notification is sent. *)
Theorem array_event_accepted (n : jsstring) (st : ButtonPlatform)
    (a : PlatformAccessory) (h : ButtonPlatformAccessory) :
  List.find (fun acc => bool_decide (UUID acc = generate n)) (accessories st)
    = Some a ->
  accessoryHandlers st !! generate n = Some h ->
  (~ holdsToken (query_event arrayRequest) /\
   ~ holdsToken (body_event arrayRequest) /\
   ~ acceptedToken (headers_event arrayRequest)) /\
  validationResult arrayRequest = [] /\
  exists st' h',
    routeHandler n arrayRequest st =
      ({| status := 200; body := Text "OK" |}, st') /\
    accessoryHandlers st' = <[generate n := h']> (accessoryHandlers st) /\
    batteryLevel h' = int 5 /\
    hap h' = (hap h ++ [ UpdateBatteryLevel (int 5);
                         UpdateStatusLowBattery BATTERY_LEVEL_LOW ])%list /\
    notifications h' = notifications h /\
    log st' = (log st ++ [UnknownEventType None])%list.
Proof.
  intros Hf Hh. split; [|split; [reflexivity|]].
  - unfold holdsToken. repeat split; intros H; apply isIn_accepted in H;
      discriminate H.
  - rewrite routeHandler_valid by reflexivity. rewrite Hf, Hh.
    eexists. exists (updateBattery (int 5) h).
    split; [reflexivity|]. split; [reflexivity|]. split; [reflexivity|].
    split; [reflexivity|]. split; [|reflexivity].
    apply notifications_updateBattery.
Qed.

(** ** Routes *)

(** Every configured name gets one route, in order, at the path
    [generateButtonUri] computes from it. *)
Lemma one_route_per_name (config : ButtonConfig)
    (persisted : list PlatformAccessory) :
  routes (startup config persisted) =
    (fun n => {| uri := generateButtonUri n; routeButton := n |}) <$>
    default [] (config_buttons config).
Proof. destruct (startup_spec config persisted) as (_ & _ & _ & _ & -> & _).
       reflexivity. Qed.

(** When the members of the class are their own canonical form, the code
    points kept by [replaceAll] are those whose canonical form is in
    [a-z0-9]. *)
Lemma replaceAll_keeps_folded (s : jsstring) :
  (forall a, a ∈ classMembers -> Canonicalize a = a) ->
  replaceAll s =
    (fun ch => if bool_decide (Canonicalize ch ∈ classMembers) then ch else hyphen)
      <$> s.
Proof.
  intros Hc. unfold replaceAll. apply list_fmap_ext. intros _ ch _.
  unfold matchesClass.
  destruct (bool_decide_reflect (Canonicalize ch ∈ classMembers)) as [H|H].
  - replace (existsb _ classMembers) with true; [reflexivity|].
    symmetry. apply existsb_exists. exists (Canonicalize ch).
    split; [apply list_elem_of_In, H|].
    rewrite (Hc _ H). apply N.eqb_refl.
  - replace (existsb _ classMembers) with false; [reflexivity|].
    symmetry. apply not_true_is_false. intros E.
    apply existsb_exists in E as (a & Ha & E). apply N.eqb_eq in E.
    apply list_elem_of_In in Ha. rewrite (Hc _ Ha) in E. congruence.
Qed.

(** X22: when the lower-cased name has no U+017F, the path is the prefix
    followed by the lower-cased name with every code point outside [a-z0-9]
    replaced by one hyphen. The second assumption is Unicode's: besides the
    members themselves, only U+017F, U+212A and the capitals fold into
    [a-z0-9], and the last two kinds do not occur in a lower-cased string. *)
Lemma generateButtonUri_without_long_s (name : jsstring) :
  (forall a, a ∈ classMembers -> Canonicalize a = a) ->
  (forall ch, ch ∈ toLowerCase name -> Canonicalize ch ∈ classMembers ->
              ch ∈ classMembers \/ ch = long_s) ->
  long_s ∉ toLowerCase name ->
  generateButtonUri name =
    (lit "/button-" ++
     ((fun ch => if bool_decide (ch ∈ classMembers) then ch else hyphen)
        <$> toLowerCase name))%list.
Proof.
  intros Hm Hf Hs. unfold generateButtonUri. f_equal.
  rewrite replaceAll_keeps_folded by exact Hm.
  apply list_fmap_ext. intros i ch Hi.
  apply list_elem_of_lookup_2 in Hi.
  destruct (bool_decide_reflect (Canonicalize ch ∈ classMembers)) as [H|H],
           (bool_decide_reflect (ch ∈ classMembers)) as [H'|H']; try reflexivity.
  - destruct (Hf ch Hi H) as [?| ->]; contradiction.
  - rewrite (Hm ch H') in H. contradiction.
Qed.

(** C9, on the code: when the engine leaves U+017F as it is on
    lower-casing and folds it to [s], as Unicode has it, the path of the
    name made of that one character keeps the character, which is outside
    [a-z0-9], where the claim has a hyphen. *)
Theorem generateButtonUri_long_s :
  toLowerCase [long_s] = [long_s] ->
  Canonicalize long_s = 115%N ->
  Canonicalize 115%N = 115%N ->
  (long_s ∉ classMembers) /\
  generateButtonUri [long_s] = (lit "/button-" ++ [long_s])%list /\
  generateButtonUri [long_s] <> (lit "/button-" ++ [hyphen])%list.
Proof.
  intros Hl Hf Hs.
  assert (generateButtonUri [long_s] = (lit "/button-" ++ [long_s])%list) as E.
  { assert (matchesClass long_s = false) as Em.
    { unfold matchesClass. rewrite Hf. apply negb_false_iff.
      apply existsb_exists. exists 115%N. split.
      - apply list_elem_of_In. apply (bool_decide_unpack _). vm_compute. exact I.
      - rewrite Hs. reflexivity. }
    unfold generateButtonUri. rewrite Hl. unfold replaceAll.
    simpl List.map. rewrite Em. reflexivity. }
  split; [|split; [exact E|]].
  - apply (bool_decide_unpack _). vm_compute. exact I.
  - rewrite E. intros H. apply app_inv_head in H. discriminate.
Qed.

(** ** Sequences of events on one handler *)

Lemma triggerEvent_fst (e : option string) (l : option number)
    (h : ButtonPlatformAccessory) :
  fst (triggerEvent e l h) =
    {| accessory := accessory h;
       batteryLevel :=
         match l with
         | Some x => Math_max (int 0) (Math_min (int 100) (Math_trunc x))
         | None => batteryLevel h
         end;
       hap :=
         (hap h ++
          match l with
          | Some x =>
              let b := Math_max (int 0) (Math_min (int 100) (Math_trunc x)) in
              [ UpdateBatteryLevel b;
                UpdateStatusLowBattery
                  (if lt b (int 15) then BATTERY_LEVEL_LOW
                   else BATTERY_LEVEL_NORMAL) ]
          | None => []
          end ++
          match e ≫= classify with
          | Some ev => [SendEventNotification ev]
          | None => []
          end)%list |}.
Proof.
  unfold triggerEvent.
  destruct l, (e ≫= classify); simpl; rewrite ?app_nil_r, <- ?app_assoc;
    destruct h; reflexivity.
Qed.

Lemma triggerAll_snoc calls e l h :
  triggerAll (calls ++ [(e, l)]) h = fst (triggerEvent e l (triggerAll calls h)).
Proof. unfold triggerAll. rewrite foldl_snoc. reflexivity. Qed.

Lemma triggerEvent_notifications (e : option string) (l : option number)
    (h : ButtonPlatformAccessory) :
  notifications (fst (triggerEvent e l h)) =
    (notifications h ++
     match e ≫= classify with Some ev => [ev] | None => [] end)%list.
Proof.
  rewrite triggerEvent_fst. unfold notifications. cbn [hap].
  rewrite !omap_app. f_equal.
  destruct l, (e ≫= classify); reflexivity.
Qed.

(** X1: on a handler that has only ever been driven by [triggerEvent], the
    two read handlers return what was last pushed to their characteristic,
    and 100 and "normal" as long as nothing was pushed. *)
Theorem reads_agree_with_pushes (a : PlatformAccessory)
    (calls : list (option string * option number)) :
  let h := triggerAll calls (newButtonPlatformAccessory a) in
  handleBatteryLevelGet h = default (int 100) (lastBatteryLevel (hap h)) /\
  handleStatusLowBatteryGet h =
    default BATTERY_LEVEL_NORMAL (lastStatusLowBattery (hap h)).
Proof.
  induction calls as [|[e l] calls IH] using rev_ind; [split; reflexivity|].
  cbv zeta in *. rewrite triggerAll_snoc, triggerEvent_fst.
  destruct IH as [IH1 IH2].
  unfold handleBatteryLevelGet, handleStatusLowBatteryGet,
    lastBatteryLevel, lastStatusLowBattery in *.
  cbn [batteryLevel hap]. rewrite !omap_app, !last_app.
  destruct l as [x|], (e ≫= classify); cbn [omap list_omap app last default];
    auto.
Qed.

(** X2: the notifications a handler has sent are the classified events of
    the calls made on it, one per call with a known event, in the order of
    the calls; calls with an unknown event leave no gap and nothing is
    merged. The accessory it wraps is never replaced. *)
Theorem notifications_follow_calls
    (calls : list (option string * option number)) (h : ButtonPlatformAccessory) :
  notifications (triggerAll calls h) =
    (notifications h ++ omap (fun c => fst c ≫= classify) calls)%list /\
  accessory (triggerAll calls h) = accessory h.
Proof.
  induction calls as [|[e l] calls [IH1 IH2]] using rev_ind.
  - simpl. rewrite app_nil_r. split; reflexivity.
  - split; [|rewrite triggerAll_snoc, triggerEvent_fst; exact IH2].
    rewrite triggerAll_snoc, triggerEvent_notifications, IH1, omap_app,
      <- app_assoc.
    f_equal.
Qed.

(** X3: as long as no call passes NaN, the stored level is an integer
    between 0 and 100 after any sequence of calls, whatever numbers they
    pass, and the low-battery read is "low" exactly below 15. *)
Theorem level_stays_in_range (a : PlatformAccessory)
    (calls : list (option string * option number)) :
  Forall (fun c => snd c <> Some NaN) calls ->
  exists n : Z,
    0 <= n <= 100 /\
    batteryLevel (triggerAll calls (newButtonPlatformAccessory a)) = int n /\
    handleStatusLowBatteryGet (triggerAll calls (newButtonPlatformAccessory a)) =
      (if (n <? 15)%Z then BATTERY_LEVEL_LOW else BATTERY_LEVEL_NORMAL).
Proof.
  induction calls as [|[e l] calls IH] using rev_ind; intros H.
  - exists 100. repeat split; lia.
  - apply Forall_app in H as [H1 H2]. destruct (IH H1) as (n & Hn & E & El).
    rewrite triggerAll_snoc, triggerEvent_fst.
    unfold handleStatusLowBatteryGet in *. cbn [batteryLevel].
    destruct l as [x|].
    + destruct (clamp_levelOf x) as (m & _ & Hm & Em).
      { intros ->. inversion H2 as [|? ? Hx _]. apply Hx. reflexivity. }
      exists m. rewrite Em, lt_int. auto.
    + exists n. auto.
Qed.


(** ** What a request changes *)

Lemma routeHandler_keeps (n : jsstring) (req : Request) (st : ButtonPlatform) :
  accessories (snd (routeHandler n req st)) = accessories st /\
  api (snd (routeHandler n req st)) = api st /\
  routes (snd (routeHandler n req st)) = routes st /\
  buttons (snd (routeHandler n req st)) = buttons st /\
  port (snd (routeHandler n req st)) = port st /\
  (forall u, u <> generate n ->
     accessoryHandlers (snd (routeHandler n req st)) !! u =
     accessoryHandlers st !! u) /\
  dom (accessoryHandlers (snd (routeHandler n req st))) =
    dom (accessoryHandlers st) /\
  (exists lines, log (snd (routeHandler n req st)) = (log st ++ lines)%list).
Proof.
  destruct (decide (validationResult req = [])) as [Hv|Hv].
  - rewrite routeHandler_valid by exact Hv.
    destruct (List.find _ (accessories st)); simpl.
    + destruct (accessoryHandlers st !! generate n) as [h|] eqn:Eh; simpl.
      * repeat split; eauto.
        -- intros u Hu. apply lookup_insert_ne. congruence.
        -- apply dom_insert_lookup_L. rewrite Eh. eauto.
      * repeat split; eauto.
    + repeat split; eauto.
  - rewrite routeHandler_invalid by exact Hv. simpl.
    repeat split; auto. exists []. rewrite app_nil_r. reflexivity.
Qed.

Lemma routeHandler_status (n : jsstring) (req : Request) (st : ButtonPlatform) :
  status (fst (routeHandler n req st)) = 200 \/
  status (fst (routeHandler n req st)) = 404 \/
  status (fst (routeHandler n req st)) = 422 \/
  status (fst (routeHandler n req st)) = 500.
Proof.
  destruct (decide (validationResult req = [])) as [Hv|Hv].
  - rewrite routeHandler_valid by exact Hv.
    destruct (List.find _ (accessories st)); simpl; [|auto].
    destruct (accessoryHandlers st !! generate n); simpl; auto.
  - rewrite routeHandler_invalid by exact Hv. simpl. auto.
Qed.

(** X4: a request to the route of a button answers 200, 404, 422 or 500
    and changes nothing but the handler of that button and the log, which
    only grows: the cached accessories, the API calls made, the routes, the
    configuration and the handlers of all other buttons stay as they were,
    and no index entry appears or disappears. *)
Theorem request_touches_one_handler (n : jsstring) (req : Request)
    (st : ButtonPlatform) :
  let answer := fst (routeHandler n req st) in
  let st' := snd (routeHandler n req st) in
  (status answer = 200 \/ status answer = 404 \/
   status answer = 422 \/ status answer = 500) /\
  accessories st' = accessories st /\
  api st' = api st /\
  routes st' = routes st /\
  buttons st' = buttons st /\
  port st' = port st /\
  (forall u, u <> generate n ->
     accessoryHandlers st' !! u = accessoryHandlers st !! u) /\
  dom (accessoryHandlers st') = dom (accessoryHandlers st) /\
  (exists lines, log st' = (log st ++ lines)%list).
Proof.
  intros answer st'. split; [apply routeHandler_status|].
  apply routeHandler_keeps.
Qed.

Lemma serveAll_keeps (rs : list (jsstring * Request)) :
  forall st : ButtonPlatform,
    accessories (serveAll st rs) = accessories st /\
    api (serveAll st rs) = api st /\
    routes (serveAll st rs) = routes st /\
    buttons (serveAll st rs) = buttons st /\
    dom (accessoryHandlers (serveAll st rs)) = dom (accessoryHandlers st).
Proof.
  unfold serveAll.
  induction rs as [|[n req] rs IH]; intros st; simpl; [repeat split|].
  destruct (IH (serve st (n, req))) as (H1 & H2 & H3 & H4 & H5).
  destruct (routeHandler_keeps n req st) as (K1 & K2 & K3 & K4 & _ & _ & K5 & _).
  unfold serve in *. simpl in *.
  rewrite H1, H2, H3, H4, H5. repeat split; assumption.
Qed.

(** X5: after a start-up and any sequence of requests, a valid request to
    the route of a configured button is answered 200 when the button had a
    cached accessory at start-up and 404 when it had none; it is never
    answered 500, the handler of a configured button being always there. *)
Theorem configured_route_answer (config : ButtonConfig)
    (persisted : list PlatformAccessory) (rs : list (jsstring * Request))
    (n : jsstring) (req : Request) :
  n ∈ default [] (config_buttons config) ->
  validationResult req = [] ->
  status (fst (routeHandler n req (serveAll (startup config persisted) rs))) =
    if decide (generate n ∈ UUID <$> persisted) then 200 else 404.
Proof.
  intros Hn Hv. rewrite routeHandler_valid by exact Hv.
  destruct (serveAll_keeps rs (startup config persisted)) as (Ha & _ & _ & _ & Hd).
  destruct (startup_spec config persisted) as (T & _).
  rewrite Ha.
  destruct (decide (generate n ∈ UUID <$> persisted)) as [Hc|Hc].
  - rewrite <- (touched_uuids _ _ _ T) in Hc.
    destruct (find_uuid_Some _ _ Hc) as [a ->].
    assert (is_Some (accessoryHandlers (serveAll (startup config persisted) rs)
                       !! generate n)) as [h ->]; [|reflexivity].
    apply elem_of_dom. rewrite Hd. apply elem_of_dom.
    apply startup_index_domain, list_elem_of_fmap. eauto.
  - rewrite find_uuid_None; [reflexivity|].
    rewrite (touched_uuids _ _ _ T). exact Hc.
Qed.

Lemma clamp_int (v : Z) :
  0 <= v <= 100 ->
  Math_max (int 0) (Math_min (int 100) (Math_trunc (int v))) = int v.
Proof.
  intros Hv. unfold Math_trunc, int at 3, Qtruncate. simpl.
  rewrite Z.quot_1_r, Math_min_int, Math_max_int. f_equal. lia.
Qed.

(** The level read from the battery header of a validated request. *)
Lemma requestBattery_header (req : Request) :
  validationResult req = [] ->
  (requestBattery req = None <-> headers_battery req = None) /\
  (forall s, headers_battery req = Some s ->
     exists v, signedInt s = Some v /\ 0 <= v <= 100 /\
               requestBattery req = Some (int v)).
Proof.
  intros Hv. apply validationResult_nil in Hv as [_ Hb].
  assert (forall s, headers_battery req = Some s ->
            exists v, signedInt s = Some v /\ 0 <= v <= 100 /\
                      requestBattery req = Some (int v)) as H.
  { intros s Es. destruct (Hb s Es) as (v & Ev & Hr).
    exists v. split; [exact Ev|]. split; [exact Hr|].
    unfold requestBattery, Number. rewrite Es, Ev.
    rewrite bool_decide_eq_false_2; [reflexivity|].
    intros ->. discriminate Ev. }
  split; [|exact H]. split.
  - intros E. destruct (headers_battery req) as [s|] eqn:Es; [|reflexivity].
    destruct (H s eq_refl) as (v & _ & _ & E'). congruence.
  - intros E. unfold requestBattery. rewrite E. reflexivity.
Qed.

(** X6: on a validated request the battery header is never dropped: the
    level handed to [triggerEvent] is absent exactly when the header is,
    and otherwise is the integer the header reads as, between 0 and 100,
    zero included. *)
Theorem validated_header_is_the_level (req : Request) :
  validationResult req = [] ->
  (requestBattery req = None <-> headers_battery req = None) /\
  (forall s, headers_battery req = Some s ->
     exists v, signedInt s = Some v /\ 0 <= v <= 100 /\
               requestBattery req = Some (int v)).
Proof. exact (requestBattery_header req). Qed.

(** X7: a valid request whose first present source holds an accepted token,
    to a button whose accessory and handler are there, is answered 200,
    logs nothing, and leaves the handler with exactly one more
    notification, of the classified event; without a battery header the
    stored level is untouched and nothing else is pushed, and with one the
    level becomes the header's integer and is pushed, with the low-battery
    status, before the notification. *)
Theorem valid_request_effect (n : jsstring) (req : Request) (st : ButtonPlatform)
    (a : PlatformAccessory) (h : ButtonPlatformAccessory)
    (e : ProgrammableSwitchEvent) :
  validationResult req = [] ->
  List.find (fun acc => bool_decide (UUID acc = generate n)) (accessories st)
    = Some a ->
  accessoryHandlers st !! generate n = Some h ->
  requestEvent req ≫= classify = Some e ->
  exists h',
    routeHandler n req st =
      ({| status := 200; body := Text "OK" |},
       with_accessoryHandlers (<[generate n := h']> (accessoryHandlers st)) st) /\
    notifications h' = (notifications h ++ [e])%list /\
    accessory h' = accessory h /\
    (headers_battery req = None ->
     batteryLevel h' = batteryLevel h /\
     hap h' = (hap h ++ [SendEventNotification e])%list) /\
    (forall s v, headers_battery req = Some s -> signedInt s = Some v ->
       batteryLevel h' = int v /\
       hap h' =
         (hap h ++
          [ UpdateBatteryLevel (int v);
            UpdateStatusLowBattery
              (if (v <? 15)%Z then BATTERY_LEVEL_LOW else BATTERY_LEVEL_NORMAL);
            SendEventNotification e ])%list).
Proof.
  intros Hv Hf Hh He.
  exists (fst (triggerEvent (requestEvent req) (requestBattery req) h)).
  split.
  { rewrite routeHandler_valid by exact Hv. rewrite Hf, Hh.
    unfold triggerEvent at 1. rewrite He. cbn [snd].
    unfold logError. simpl. rewrite app_nil_r. destruct st; reflexivity. }
  split.
  { rewrite triggerEvent_notifications, He. reflexivity. }
  rewrite triggerEvent_fst, He. cbn [accessory batteryLevel hap].
  destruct (requestBattery_header req Hv) as [Hnone Hsome].
  split; [reflexivity|]. split.
  - intros Eb. rewrite (proj2 Hnone Eb). auto.
  - intros s v Es Ev. destruct (Hsome s Es) as (v' & Ev' & Hr & ->).
    assert (v' = v) as -> by congruence.
    cbv zeta. rewrite clamp_int by exact Hr. rewrite lt_int. auto.
Qed.

(** ** Invariants of the index under requests *)

Lemma index_after_request (n : jsstring) (req : Request) (st : ButtonPlatform)
    (u : string) (h' : ButtonPlatformAccessory) :
  accessoryHandlers (snd (routeHandler n req st)) !! u = Some h' ->
  accessoryHandlers st !! u = Some h' \/
  exists h, accessoryHandlers st !! u = Some h /\
            validationResult req = [] /\
            h' = fst (triggerEvent (requestEvent req) (requestBattery req) h).
Proof.
  destruct (decide (validationResult req = [])) as [Hv|Hv].
  - rewrite routeHandler_valid by exact Hv.
    destruct (List.find _ (accessories st)); simpl; [|auto].
    destruct (accessoryHandlers st !! generate n) as [h|] eqn:Eh; simpl; [|auto].
    destruct (decide (generate n = u)) as [<-|Hne].
    + rewrite lookup_insert_eq. intros [= <-]. right. eauto.
    + rewrite lookup_insert_ne by exact Hne. auto.
  - rewrite routeHandler_invalid by exact Hv. auto.
Qed.

(** X8: at any time after a start-up, whatever requests were served, every
    handler in the index wraps an accessory whose identifier is the key it
    is stored under and whose context is a configured name with that
    identifier, and holds a level that is an integer between 0 and 100. *)
Theorem index_stays_sound (config : ButtonConfig)
    (persisted : list PlatformAccessory) (rs : list (jsstring * Request))
    (u : string) (h : ButtonPlatformAccessory) :
  accessoryHandlers (serveAll (startup config persisted) rs) !! u = Some h ->
  UUID (accessory h) = u /\
  (exists n, n ∈ default [] (config_buttons config) /\ generate n = u /\
             context (accessory h) = Some n) /\
  (exists v, 0 <= v <= 100 /\ batteryLevel h = int v).
Proof.
  revert u h. induction rs as [|[n req] rs IH] using rev_ind; intros u h.
  - simpl. rewrite startup_lookup.
    destruct (last_configured (default [] (config_buttons config)) u)
      as [(m & -> & Hm & E) | [-> _]]; [|discriminate].
    simpl. intros [= <-]. simpl. split; [exact E|]. split; [eauto|].
    exists 100. split; [lia | reflexivity].
  - unfold serveAll. rewrite foldl_snoc. fold (serveAll (startup config persisted) rs).
    unfold serve. simpl. intros H.
    apply index_after_request in H as [H | (h0 & H0 & Hv & ->)]; [eauto|].
    destruct (IH u h0 H0) as (Hu & Hn & v & Hr & Ev).
    rewrite triggerEvent_fst. cbn [accessory batteryLevel].
    split; [exact Hu|]. split; [exact Hn|].
    destruct (requestBattery req) as [x|] eqn:Ex; [|eauto].
    destruct (requestBattery_in_range req x Hv Ex) as (w & -> & Hw).
    exists w. split; [exact Hw | apply clamp_int, Hw].
Qed.

Lemma failsValidation_iff (req : Request) :
  failsValidation req <-> validationResult req <> [].
Proof.
  rewrite validationResult_nil. unfold failsValidation. split.
  - intros [(Hq & Hb & Hh) | (s & Es & Hs)] [H1 H2].
    + destruct H1 as [? | [? | ?]]; contradiction.
    + apply Hs, H2, Es.
  - intros H.
    assert (forall v, acceptedSource v \/ ~ acceptedSource v) as dec.
    { intros v. rewrite <- (eventChain_nil InQuery v).
      destruct (eventChain InQuery v); [left; reflexivity | right; discriminate]. }
    pose proof (dec (query_event req)) as Dq.
    pose proof (dec (body_event req)) as Db.
    pose proof (dec (Str <$> headers_event req)) as Dh.
    rewrite acceptedSource_Str in Dh.
    assert ((acceptedSource (query_event req) \/
             acceptedSource (body_event req) \/
             acceptedToken (headers_event req)) \/
            (~ acceptedSource (query_event req) /\
             ~ acceptedSource (body_event req) /\
             ~ acceptedToken (headers_event req))) as [A|A] by tauto;
      [|left; exact A].
    right. destruct (headers_battery req) as [s|] eqn:Es.
    + destruct (isInt 0 100 s) eqn:Ei.
      * exfalso. apply H. split; [exact A|].
        intros s' [= <-]. apply isInt_inRange, Ei.
      * exists s. split; [reflexivity|].
        intros Hr. apply isInt_inRange in Hr. congruence.
    + exfalso. apply H. split; [exact A | intros s' [=]].
Qed.

(** X9: the route answers 422 exactly when the validators accept no source
    (a source is accepted when it is an accepted token, or an array all of
    whose elements are accepted tokens, the empty array included) or the
    battery header is present and does not read as an integer between 0 and
    100; the list of errors then has one or two entries. *)
Theorem unprocessable_iff (n : jsstring) (req : Request) (st : ButtonPlatform) :
  (status (fst (routeHandler n req st)) = 422 <-> failsValidation req) /\
  (failsValidation req ->
   (1 <= length (validationResult req) <= 2)%nat /\
   body (fst (routeHandler n req st)) = Json (validationResult req)).
Proof.
  rewrite failsValidation_iff. split; [split|].
  - intros H Hv. rewrite routeHandler_valid in H by exact Hv.
    destruct (List.find _ (accessories st)); simpl in H; [|discriminate].
    destruct (accessoryHandlers st !! generate n); discriminate.
  - intros Hv. rewrite routeHandler_invalid by exact Hv. reflexivity.
  - intros Hv. rewrite routeHandler_invalid by exact Hv.
    split; [|reflexivity].
    destruct (validationResult req) as [|e1 l] eqn:E; [congruence|].
    split; [simpl; lia|].
    assert (length (validationResult req) <= 2)%nat as Hl.
    { unfold validationResult, oneOf, batteryChain. rewrite length_app.
      destruct (existsb _ _); destruct (headers_battery req) as [s|];
        try destruct (isInt 0 100 s); simpl; lia. }
    rewrite E in Hl. exact Hl.
Qed.

(** ** More on [discoverDevices] *)

(** X10: the API calls of [discoverDevices] are, after those made before,
    one per configured name in the order of the configuration (an update of
    the first cached accessory with the name's identifier, its display name
    kept and its context set to the name, or else the registration of a new
    accessory named after the button), followed by one unregistration per
    cached accessory whose identifier no configured name has, in the order
    of the cache. *)
Theorem discoverDevices_calls (st : ButtonPlatform) :
  api (discoverDevices st) =
    (api st
       ++ ((fun n =>
              let acc := {| displayName :=
                              default n (cachedName (accessories st) (generate n));
                            UUID := generate n;
                            context := Some n |} in
              if decide (generate n ∈ UUID <$> accessories st)
              then UpdatePlatformAccessories acc
              else RegisterPlatformAccessories acc) <$> buttons st)
       ++ (UnregisterPlatformAccessories <$>
             filter (fun a => UUID a ∉ generate <$> buttons st) (accessories st)))%list.
Proof.
  destruct (discoverDevices_spec st) as (_ & _ & -> & _).
  f_equal. f_equal. apply list_fmap_ext. intros _ n _.
  unfold callFor, accessoryFor.
  destruct (decide (generate n ∈ UUID <$> accessories st)) as [H|H].
  - destruct (cachedName (accessories st) (generate n)) eqn:E; [reflexivity|].
    apply cachedName_None in E. contradiction.
  - apply cachedName_None in H. rewrite H. reflexivity.
Qed.

Lemma touched_idents S l l0 :
  touched S l l0 ->
  (fun a => (UUID a, displayName a)) <$> l =
  (fun a => (UUID a, displayName a)) <$> l0.
Proof.
  induction 1 as [|a b l l0 (Hu & Hd & _) _ IH]; [reflexivity|].
  rewrite !fmap_cons, Hu, Hd, IH. reflexivity.
Qed.

Lemma touched_untouched S l l0 a :
  touched S l l0 -> a ∈ l0 -> UUID a ∉ S -> a ∈ l.
Proof.
  induction 1 as [|x b l l0 (_ & _ & He) _ IH]; intros Ha Hs; [inversion Ha|].
  apply elem_of_cons in Ha as [->|Ha].
  - rewrite (He Hs). apply list_elem_of_here.
  - apply list_elem_of_further, IH; assumption.
Qed.

(** X11: [discoverDevices] never adds to nor removes from
    [this.accessories]: the list keeps its length, its identifiers and its
    display names, in order. An accessory it unregisters stays in the list,
    unchanged, and an accessory it registers does not enter it. *)
Theorem discoverDevices_keeps_cache (st : ButtonPlatform) :
  (fun a => (UUID a, displayName a)) <$> accessories (discoverDevices st) =
  (fun a => (UUID a, displayName a)) <$> accessories st /\
  length (accessories (discoverDevices st)) = length (accessories st) /\
  (forall a, a ∈ accessories st -> (UUID a ∉ generate <$> buttons st) ->
     a ∈ accessories (discoverDevices st) /\
     UnregisterPlatformAccessories a ∈ api (discoverDevices st)) /\
  (forall a, RegisterPlatformAccessories a
               ∈ drop (length (api st)) (api (discoverDevices st)) ->
     UUID a ∉ UUID <$> accessories (discoverDevices st)).
Proof.
  destruct (discoverDevices_spec st) as (T & _ & Ha & _).
  split; [exact (touched_idents _ _ _ T)|].
  split; [exact (Forall2_length _ _ _ T)|]. split.
  - intros a Hin Hs. split; [eapply touched_untouched; eassumption|].
    rewrite Ha, !elem_of_app. right. right.
    apply list_elem_of_fmap. exists a. split; [reflexivity|].
    apply elem_of_stale. auto.
  - intros a. rewrite Ha, drop_app_length, elem_of_app.
    rewrite (touched_uuids _ _ _ T).
    intros [H|H]; apply list_elem_of_fmap in H as (x & E & Hx); [|discriminate E].
    unfold callFor in E.
    destruct (cachedName (accessories st) (generate x)) eqn:Ec; [discriminate E|].
    injection E as ->. simpl. apply cachedName_None, Ec.
Qed.

Lemma touched_nil l l0 : touched [] l l0 -> l = l0.
Proof.
  induction 1 as [|a b l l0 (_ & _ & He) _ IH]; [reflexivity|].
  rewrite IH, (He (not_elem_of_nil _)). reflexivity.
Qed.

(** X12: with no button configured, the list absent or empty, a start-up
    unregisters every cached accessory, in order, and does nothing else:
    the index is empty, no route is added, the cache list is as it was, and
    the persisted set ends up empty. *)
Theorem no_buttons_configured (config : ButtonConfig)
    (persisted : list PlatformAccessory) :
  default [] (config_buttons config) = [] ->
  let st := startup config persisted in
  api st = UnregisterPlatformAccessories <$> persisted /\
  accessoryHandlers st = ∅ /\
  routes st = [] /\
  accessories st = persisted /\
  persistedAfter st = [].
Proof.
  intros E st.
  assert (stale [] persisted = persisted) as Es
    by (apply filter_all; intros a _; apply not_elem_of_nil).
  destruct (startup_spec config persisted) as (T & Hh & Ha & _ & Hr & _).
  rewrite E in *. simpl in *. rewrite Es in *.
  split; [exact Ha|]. split; [|split; [exact Hr|]].
  - apply map_eq. intros u. unfold st.
    rewrite Hh, lookup_deleteHandlers, lookup_empty.
    destruct (decide _); reflexivity.
  - assert (accessories st = persisted) as Hacc by (apply touched_nil, T).
    split; [exact Hacc|].
    unfold persistedAfter. fold st in Ha. rewrite Ha, Hacc, applyCall_removed.
    apply filter_none. intros a Hin Hn. apply Hn, list_elem_of_fmap. eauto.
Qed.

Lemma added_startup (config : ButtonConfig) (persisted : list PlatformAccessory) :
  added (startup config persisted) =
    newOnes persisted (default [] (config_buttons config)).
Proof.
  unfold added. destruct (startup_spec config persisted) as (_ & _ & -> & _).
  rewrite omap_app.
  assert (forall l : list PlatformAccessory,
            omap (fun c => match c with
                           | RegisterPlatformAccessories a => Some a
                           | _ => None
                           end) (UnregisterPlatformAccessories <$> l) = []) as ->
    by (intros l; induction l; [reflexivity | assumption]).
  rewrite app_nil_r. unfold newOnes.
  induction (default [] (config_buttons config)) as [|n names IH]; [reflexivity|].
  simpl. unfold callFor at 1.
  destruct (cachedName persisted (generate n)); simpl;
    [exact IH | f_equal; exact IH].
Qed.

(** X13: a start-up registers one new accessory per configured entry whose
    identifier has no cached accessory, and none for the others: an
    identifier that is cached is never registered, and one that is not is
    registered as many times as the configuration lists a name with it, so
    a name listed twice is registered twice under the same identifier. *)
Theorem registrations_per_identifier (config : ButtonConfig)
    (persisted : list PlatformAccessory) (u : string) :
  length (filter (fun a => UUID a = u) (added (startup config persisted))) =
    if decide (u ∈ UUID <$> persisted) then 0%nat
    else length (filter (fun n => generate n = u)
                        (default [] (config_buttons config))).
Proof.
  rewrite added_startup. unfold newOnes.
  induction (default [] (config_buttons config)) as [|n names IH].
  - destruct (decide _); reflexivity.
  - cbn [omap list_omap]. rewrite (filter_cons (fun n => generate n = u)).
    destruct (cachedName persisted (generate n)) eqn:Ec.
    + rewrite IH. destruct (decide (u ∈ UUID <$> persisted)) as [H|H]; [reflexivity|].
      destruct (decide (generate n = u)) as [<-|_]; [|reflexivity].
      apply cachedName_None in H. congruence.
    + rewrite filter_cons. cbn [UUID accessoryFor].
      apply cachedName_None in Ec.
      destruct (decide (generate n = u)) as [<-|_]; [|exact IH].
      rewrite decide_False in * by exact Ec. simpl. rewrite IH. reflexivity.
Qed.

(** X14: the persisted set a start-up leaves has exactly the identifiers of
    the configured names: every configured name has an accessory in it and
    every accessory in it has the identifier of a configured name. *)
Theorem persisted_identifiers (config : ButtonConfig)
    (persisted : list PlatformAccessory) (u : string) :
  u ∈ UUID <$> persistedAfter (startup config persisted) <->
  u ∈ generate <$> default [] (config_buttons config).
Proof.
  split.
  - intros (a & -> & Ha)%list_elem_of_fmap.
    apply (persistedAfter_configured config persisted), Ha.
  - intros (n & -> & Hn)%list_elem_of_fmap.
    destruct (persistedAfter_cached config persisted n Hn) as [d Hd].
    destruct (decide (generate n ∈ UUID <$> persistedAfter (startup config persisted)))
      as [H|H]; [exact H|].
    apply cachedName_None in H. congruence.
Qed.

(** ** Routes and dispatch *)

(** X15: [setupExpressServer] adds one route per configured entry, in the
    order of the configuration, each at the path of its button, after the
    routes already there, and changes nothing else; after a start-up the
    routes are exactly these, as many as configured entries. *)
Theorem setupExpressServer_routes (st : ButtonPlatform) :
  routes (setupExpressServer st) =
    (routes st ++
     ((fun n => {| uri := generateButtonUri n; routeButton := n |}) <$> buttons st))%list /\
  accessories (setupExpressServer st) = accessories st /\
  accessoryHandlers (setupExpressServer st) = accessoryHandlers st /\
  api (setupExpressServer st) = api st /\
  log (setupExpressServer st) = log st /\
  (forall config persisted,
     length (routes (startup config persisted)) =
       length (default [] (config_buttons config)) /\
     forall i n, default [] (config_buttons config) !! i = Some n ->
       routes (startup config persisted) !! i =
         Some {| uri := generateButtonUri n; routeButton := n |}).
Proof.
  unfold setupExpressServer. rewrite setupLoop_spec. simpl.
  repeat split; try reflexivity.
  - rewrite one_route_per_name, length_fmap. reflexivity.
  - intros i n Hi. rewrite one_route_per_name, list_lookup_fmap, Hi. reflexivity.
Qed.

Lemma find_route_none (pathMatches : jsstring -> string -> bool)
    (names : list jsstring) (p : string) :
  (forall n, n ∈ names -> pathMatches (generateButtonUri n) p = false) ->
  List.find (fun route => pathMatches (uri route) p)
    ((fun n => {| uri := generateButtonUri n; routeButton := n |}) <$> names) = None.
Proof.
  induction names as [|n names IH]; intros H; [reflexivity|].
  simpl. rewrite (H n (list_elem_of_here _ _)).
  apply IH. intros m Hm. apply H, list_elem_of_further, Hm.
Qed.


Lemma routes_served (config : ButtonConfig) (persisted : list PlatformAccessory)
    (rs : list (jsstring * Request)) :
  routes (serveAll (startup config persisted) rs) =
    (fun n => {| uri := generateButtonUri n; routeButton := n |}) <$>
    default [] (config_buttons config).
Proof.
  destruct (serveAll_keeps rs (startup config persisted)) as (_ & _ & -> & _).
  apply one_route_per_name.
Qed.

(** X16: at any time after a start-up, a request whose path matches the
    path of no configured button is answered 404 "Button not found." by the
    fallback, its URL is logged as a warning, and the platform is left
    exactly as it was; so is every request when no button is configured. *)
Theorem unmatched_path_not_found (pathMatches : jsstring -> string -> bool)
    (config : ButtonConfig) (persisted : list PlatformAccessory)
    (rs : list (jsstring * Request)) (r : HttpRequest) :
  (forall n, n ∈ default [] (config_buttons config) ->
     pathMatches (generateButtonUri n) (reqPath r) = false) ->
  let st := serveAll (startup config persisted) rs in
  handleRequest pathMatches r st =
    ({| status := 404; body := Text "Button not found." |}, st,
     [UnconfiguredPath (originalUrl r)]).
Proof.
  intros H st. unfold handleRequest, st.
  rewrite routes_served, find_route_none by exact H. reflexivity.
Qed.


End Platform.

(** ** Closed instances

    The statements above, applied to the one-button configuration and to
    the identifier function [nameUuid]. *)


Lemma classify_table_witness : classify "tap" = None.
Proof.
  destruct classify_table as (_ & _ & _ & _ & _ & _ & _ & _ & _ & _ & H).
  apply (H "tap"); discriminate.
Defined.

Lemma triggerEvent_unknown_witness :
  snd (triggerEvent (Some "shake") (Some (int 5))
         (newButtonPlatformAccessory doorbellAccessory))
  = [UnknownEventType (Some "shake")].
Proof.
  exact (proj1 (proj2 (triggerEvent_unknown (Some "shake") (Some (int 5))
                         (newButtonPlatformAccessory doorbellAccessory) eq_refl))).
Defined.

Lemma port_default_witness :
  port (newButtonPlatform {| config_port := Some NaN; config_buttons := None |})
  = int 3001.
Proof.
  apply (proj1 (proj2 port_default)
           {| config_port := Some NaN; config_buttons := None |} NaN eq_refl).
  left. reflexivity.
Defined.

Lemma array_event_accepted_witness :
  exists st' h',
    routeHandler nameUuid doorbell arrayRequest
      (startup nameUuid basicLowerCase basicFold doorbellConfig [doorbellAccessory])
    = ({| status := 200; body := Text "OK" |}, st') /\
    accessoryHandlers st' !! nameUuid doorbell = Some h' /\
    batteryLevel h' = int 5.
Proof.
  destruct (array_event_accepted nameUuid doorbell
              (startup nameUuid basicLowerCase basicFold doorbellConfig
                 [doorbellAccessory])
              doorbellAccessory (newButtonPlatformAccessory doorbellAccessory))
    as (_ & _ & st' & h' & E & Ea & Eb & _).
  - reflexivity.
  - vm_compute. reflexivity.
  - exists st', h'. split; [exact E|]. split; [|exact Eb].
    rewrite Ea. apply lookup_insert_eq.
Defined.

Lemma new_device_not_found_witness :
  routeHandler nameUuid doorbell clickRequest
    (startup nameUuid basicLowerCase basicFold doorbellConfig [])
  = ({| status := 404; body := Text "Button not found." |},
     logError [AccessoryNotFound doorbell]
       (startup nameUuid basicLowerCase basicFold doorbellConfig [])).
Proof.
  apply (new_device_not_found nameUuid basicLowerCase basicFold doorbellConfig []
           doorbell clickRequest).
  - apply list_elem_of_here.
  - reflexivity.
  - apply not_elem_of_nil.
Defined.

Lemma conflicting_sources_accepted_witness :
  exists st',
    routeHandler nameUuid doorbell conflictingRequest
      (startup nameUuid basicLowerCase basicFold doorbellConfig [doorbellAccessory])
    = ({| status := 200; body := Text "OK" |}, st') /\
    log st' = [UnknownEventType (Some "bogus")].
Proof.
  destruct (conflicting_sources_accepted nameUuid doorbell
              (startup nameUuid basicLowerCase basicFold doorbellConfig
                 [doorbellAccessory])
              doorbellAccessory (newButtonPlatformAccessory doorbellAccessory))
    as (_ & _ & _ & st' & E & _ & _ & _ & El).
  - reflexivity.
  - vm_compute. reflexivity.
  - exists st'. split; [exact E | exact El].
Defined.

Lemma generateButtonUri_long_s_witness :
  generateButtonUri basicLowerCase basicFold [long_s]
  = (lit "/button-" ++ [long_s])%list.
Proof.
  apply (generateButtonUri_long_s basicLowerCase basicFold); reflexivity.
Defined.

Lemma reconcile_AB_BC_witness :
  let A := mkAccessory (lit "A") "A" None in
  let B := mkAccessory (lit "B") "B" (Some (lit "b")) in
  let st := startup nameUuid basicLowerCase basicFold
              {| config_port := None; config_buttons := Some [lit "B"; lit "C"] |}
              [A; B] in
  restored st = [mkAccessory (lit "B") "B" (Some (lit "B"))] /\
  added st = [mkAccessory (lit "C") "C" (Some (lit "C"))] /\
  removed st = [A].
Proof.
  intros A B st.
  destruct (reconcile_AB_BC nameUuid basicLowerCase basicFold
              (lit "A") (lit "B") (lit "C") (lit "A") (lit "B")
              None (Some (lit "b")) None [A; B] [lit "B"; lit "C"])
    as (H1 & H2 & H3 & _); try discriminate; try reflexivity.
  repeat split; assumption.
Defined.

Lemma reconcile_idempotent_witness :
  let first := startup nameUuid basicLowerCase basicFold doorbellConfig [] in
  accessoryHandlers
    (startup nameUuid basicLowerCase basicFold doorbellConfig (persistedAfter first))
  = accessoryHandlers first.
Proof.
  intros first.
  apply (reconcile_idempotent nameUuid basicLowerCase basicFold doorbellConfig []).
  intros n m Hn Hm _. simpl in Hn, Hm.
  apply list_elem_of_singleton in Hn, Hm. congruence.
Defined.

Example generateButtonUri_front_door :
  generateButtonUri basicLowerCase basicFold (lit "Front Door #2")
  = lit "/button-front-door--2".
Proof. reflexivity. Qed.

Lemma level_stays_in_range_witness :
  exists n : Z,
    0 <= n <= 100 /\
    batteryLevel
      (triggerAll [(Some "click", Some (Finite (721 # 5)));
                   (Some "tap", None);
                   (Some "hold", Some (Infinity true))]
         (newButtonPlatformAccessory doorbellAccessory)) = int n.
Proof.
  destruct (level_stays_in_range doorbellAccessory
              [(Some "click", Some (Finite (721 # 5)));
               (Some "tap", None);
               (Some "hold", Some (Infinity true))])
    as (n & Hn & E & _).
  - repeat constructor; discriminate.
  - exists n. split; assumption.
Defined.

(** ** The services the constructor sets up *)

Lemma assoc_setEntry_eq {V} k (v : V) l : assoc k (setEntry k v l) = Some v.
Proof.
  induction l as [|[k' v'] l IH]; simpl.
  - rewrite decide_True by reflexivity. reflexivity.
  - destruct (decide (k' = k)) as [E|E]; simpl.
    + rewrite decide_True by reflexivity. reflexivity.
    + rewrite decide_False by exact E. exact IH.
Qed.

Lemma assoc_setEntry_ne {V} k k0 (v : V) l :
  k <> k0 -> assoc k0 (setEntry k v l) = assoc k0 l.
Proof.
  intros Hne. induction l as [|[k' v'] l IH]; simpl.
  - rewrite decide_False by exact Hne. reflexivity.
  - destruct (decide (k' = k)) as [E|E]; simpl.
    + subst k'. rewrite !decide_False by exact Hne. reflexivity.
    + destruct (decide (k' = k0)); [reflexivity | exact IH].
Qed.

Lemma setEntry_id {V} k (v : V) l : assoc k l = Some v -> setEntry k v l = l.
Proof.
  induction l as [|[k' v'] l IH]; simpl; [discriminate|].
  destruct (decide (k' = k)) as [E|E].
  - intros [= ->]. subst k'. reflexivity.
  - intros H. rewrite (IH H). reflexivity.
Qed.

Lemma hasType_true ty s : hasType ty s = true <-> serviceType s = ty.
Proof. unfold hasType. apply bool_decide_eq_true. Qed.

Lemma alterFirst_types P f l :
  (forall s, serviceType (f s) = serviceType s) ->
  serviceType <$> alterFirst P f l = serviceType <$> l.
Proof.
  intros Hf. induction l as [|s l IH]; [reflexivity|].
  simpl. destruct (P s); rewrite !fmap_cons; [rewrite Hf | rewrite IH]; reflexivity.
Qed.

Lemma getService_alterFirst_same ty f l :
  (forall s, serviceType (f s) = serviceType s) ->
  getService ty (alterFirst (hasType ty) f l) = f <$> getService ty l.
Proof.
  intros Hf. unfold getService. induction l as [|s l IH]; [reflexivity|].
  simpl. destruct (hasType ty s) eqn:E; simpl.
  - unfold hasType in *. rewrite Hf, E. reflexivity.
  - rewrite E. exact IH.
Qed.

Lemma getService_alterFirst_other ty ty' f l :
  ty <> ty' ->
  (forall s, serviceType (f s) = serviceType s) ->
  getService ty' (alterFirst (hasType ty) f l) = getService ty' l.
Proof.
  intros Hne Hf. unfold getService. induction l as [|s l IH]; [reflexivity|].
  simpl. destruct (hasType ty s) eqn:E; simpl.
  - apply hasType_true in E. unfold hasType. rewrite Hf, E.
    rewrite !bool_decide_eq_false_2 by exact Hne. reflexivity.
  - destruct (hasType ty' s); [reflexivity | exact IH].
Qed.

Lemma getService_types ty l :
  is_Some (getService ty l) <-> ty ∈ serviceType <$> l.
Proof.
  unfold getService. induction l as [|s l IH]; simpl.
  - split; [intros [? [=]] | intros H; inversion H].
  - rewrite elem_of_cons. destruct (hasType ty s) eqn:E.
    + apply hasType_true in E. split; [auto | eauto].
    + rewrite IH. split; [auto|]. intros [H|H]; [|exact H].
      symmetry in H. apply hasType_true in H. congruence.
Qed.

Lemma getService_None ty l :
  getService ty l = None <-> ty ∉ serviceType <$> l.
Proof.
  rewrite <- getService_types, eq_None_not_Some. reflexivity.
Qed.

Lemma getService_hasType ty l s : getService ty l = Some s -> serviceType s = ty.
Proof.
  unfold getService. intros H. apply find_some in H as [_ H].
  apply hasType_true, H.
Qed.

Lemma getService_app ty l x :
  getService ty (l ++ [x]) =
    match getService ty l with
    | Some s => Some s
    | None => if hasType ty x then Some x else None
    end.
Proof.
  unfold getService. induction l as [|s l IH]; [reflexivity|].
  simpl. destruct (hasType ty s); [reflexivity | exact IH].
Qed.

Lemma alterFirst_fixed ty f l :
  (forall s, getService ty l = Some s -> f s = s) ->
  alterFirst (hasType ty) f l = l.
Proof.
  unfold getService. induction l as [|s l IH]; intros H; [reflexivity|].
  simpl in *. destruct (hasType ty s).
  - rewrite (H s eq_refl). reflexivity.
  - rewrite (IH H). reflexivity.
Qed.

Lemma alterFirst_others P f l s :
  s ∈ l -> P s = false -> s ∈ alterFirst P f l.
Proof.
  induction l as [|x l IH]; intros Hin Hs; [inversion Hin|].
  simpl. apply elem_of_cons in Hin as [->|Hin].
  - rewrite Hs. apply list_elem_of_here.
  - destruct (P x); apply list_elem_of_further; [exact Hin | apply IH; assumption].
Qed.

Lemma getOrAddService_types ty l :
  serviceType <$> getOrAddService ty l =
    ((serviceType <$> l) ++
     if decide (ty ∈ serviceType <$> l) then [] else [ty])%list.
Proof.
  unfold getOrAddService. destruct (getService ty l) eqn:E.
  - rewrite decide_True by (apply getService_types; eauto).
    rewrite app_nil_r. reflexivity.
  - rewrite decide_False by (apply getService_None, E).
    unfold addService. rewrite fmap_app. reflexivity.
Qed.

Lemma getOrAddService_present ty l :
  is_Some (getService ty (getOrAddService ty l)).
Proof.
  apply getService_types. rewrite getOrAddService_types.
  destruct (decide (ty ∈ serviceType <$> l)) as [H|H].
  - rewrite app_nil_r. exact H.
  - apply elem_of_app. right. apply list_elem_of_here.
Qed.

Lemma getOrAddService_other ty ty' l :
  ty <> ty' -> getService ty' (getOrAddService ty l) = getService ty' l.
Proof.
  intros Hne. unfold getOrAddService.
  destruct (getService ty l); [reflexivity|].
  unfold addService. rewrite getService_app.
  destruct (getService ty' l); [reflexivity|].
  unfold hasType. simpl. rewrite bool_decide_eq_false_2 by exact Hne. reflexivity.
Qed.

Lemma getOrAddService_fixed ty l :
  is_Some (getService ty l) -> getOrAddService ty l = l.
Proof. intros [s E]. unfold getOrAddService. rewrite E. reflexivity. Qed.

Lemma getOrAddService_same ty l :
  getService ty (getOrAddService ty l) =
    Some (default (newService ty) (getService ty l)).
Proof.
  unfold getOrAddService. destruct (getService ty l) eqn:E; [exact E|].
  unfold addService. rewrite getService_app, E.
  unfold hasType. simpl. rewrite bool_decide_eq_true_2 by reflexivity.
  reflexivity.
Qed.

Lemma writeInformation_type a s :
  serviceType (writeInformation a s) = serviceType s.
Proof. reflexivity. Qed.

Lemma writeSwitch_type name s : serviceType (writeSwitch name s) = serviceType s.
Proof. reflexivity. Qed.

Lemma writeBattery_type name s : serviceType (writeBattery name s) = serviceType s.
Proof. reflexivity. Qed.

Ltac solve_assoc :=
  repeat first [ apply assoc_setEntry_eq
               | rewrite assoc_setEntry_ne by discriminate ].

Lemma writeInformation_again a s :
  writeInformation a (writeInformation a s) = writeInformation a s.
Proof.
  unfold writeInformation, setCharacteristic. simpl. f_equal.
  rewrite (setEntry_id Characteristic.Manufacturer) by solve_assoc.
  rewrite (setEntry_id Characteristic.Model) by solve_assoc.
  rewrite (setEntry_id Characteristic.SerialNumber) by solve_assoc.
  reflexivity.
Qed.

Lemma writeSwitch_again name s :
  writeSwitch name (writeSwitch name s) = writeSwitch name s.
Proof.
  unfold writeSwitch, setCharacteristic. simpl. f_equal.
  rewrite (setEntry_id Characteristic.Name) by solve_assoc. reflexivity.
Qed.

Lemma writeBattery_again name s :
  writeBattery name (writeBattery name s) = writeBattery name s.
Proof.
  unfold writeBattery, setCharacteristic, setOnGet. simpl. f_equal.
  - rewrite (setEntry_id Characteristic.Name) by solve_assoc. reflexivity.
  - rewrite (setEntry_id Characteristic.BatteryLevel) by solve_assoc.
    rewrite (setEntry_id Characteristic.StatusLowBattery) by solve_assoc.
    rewrite (setEntry_id Characteristic.ChargingState) by solve_assoc.
    reflexivity.
Qed.

(** The services a completed construction leaves, and the first service of
    each of the three types among them. *)
Lemma constructServices_built (a : PlatformAccessory) (services : list Service)
    (name : jsstring) :
  context a = Some name ->
  is_Some (getService AccessoryInformation services) ->
  exists built,
    constructServices a services = Constructed built /\
    serviceType <$> built =
      ((serviceType <$> services)
         ++ (if decide (StatelessProgrammableSwitch ∈ serviceType <$> services)
             then [] else [StatelessProgrammableSwitch])
         ++ (if decide (Battery ∈ serviceType <$> services)
             then [] else [Battery]))%list /\
    getService AccessoryInformation built =
      writeInformation a <$> getService AccessoryInformation services /\
    getService StatelessProgrammableSwitch built =
      Some (writeSwitch name
              (default (newService StatelessProgrammableSwitch)
                 (getService StatelessProgrammableSwitch services))) /\
    getService Battery built =
      Some (writeBattery name
              (default (newService Battery) (getService Battery services))) /\
    (forall s, s ∈ services ->
       serviceType s <> AccessoryInformation ->
       serviceType s <> StatelessProgrammableSwitch ->
       serviceType s <> Battery -> s ∈ built).
Proof.
  intros Hc [info Hi]. unfold constructServices. rewrite Hi, Hc.
  eexists. split; [reflexivity|].
  split; [|split; [|split; [|split]]].
  - rewrite alterFirst_types by apply writeBattery_type.
    rewrite getOrAddService_types.
    rewrite alterFirst_types by apply writeSwitch_type.
    rewrite getOrAddService_types.
    rewrite alterFirst_types by apply writeInformation_type.
    rewrite <- app_assoc. f_equal. f_equal.
    destruct (decide (StatelessProgrammableSwitch ∈ serviceType <$> services)).
    + rewrite app_nil_r. reflexivity.
    + destruct (decide (Battery ∈ serviceType <$> services)) as [H|H].
      * rewrite decide_True by (apply elem_of_app; auto). reflexivity.
      * rewrite decide_False; [reflexivity|].
        rewrite elem_of_app, list_elem_of_singleton. intros [?|?]; [auto|discriminate].
  - rewrite getService_alterFirst_other by (discriminate || apply writeBattery_type).
    rewrite getOrAddService_other by discriminate.
    rewrite getService_alterFirst_other by (discriminate || apply writeSwitch_type).
    rewrite getOrAddService_other by discriminate.
    rewrite <- Hi. apply getService_alterFirst_same, writeInformation_type.
  - rewrite getService_alterFirst_other by (discriminate || apply writeBattery_type).
    rewrite getOrAddService_other by discriminate.
    rewrite getService_alterFirst_same by apply writeSwitch_type.
    rewrite getOrAddService_same.
    rewrite getService_alterFirst_other by (discriminate || apply writeInformation_type).
    reflexivity.
  - rewrite getService_alterFirst_same by apply writeBattery_type.
    rewrite getOrAddService_same.
    rewrite getService_alterFirst_other by (discriminate || apply writeSwitch_type).
    rewrite getOrAddService_other by discriminate.
    rewrite getService_alterFirst_other by (discriminate || apply writeInformation_type).
    reflexivity.
  - intros s Hs H1 H2 H3.
    assert (forall ty, serviceType s <> ty -> hasType ty s = false) as Hf
      by (intros ty Hty; apply bool_decide_eq_false_2, Hty).
    assert (forall ty l, s ∈ l -> s ∈ getOrAddService ty l) as Hg.
    { intros ty l Hl. unfold getOrAddService, addService.
      destruct (getService ty l); [exact Hl | apply elem_of_app; auto]. }
    apply alterFirst_others; [|apply Hf, H3]. apply Hg.
    apply alterFirst_others; [|apply Hf, H2]. apply Hg.
    apply alterFirst_others; [exact Hs | apply Hf, H1].
Qed.

Lemma constructServices_Constructed (a : PlatformAccessory)
    (services built : list Service) :
  constructServices a services = Constructed built ->
  exists name, context a = Some name /\
               is_Some (getService AccessoryInformation services).
Proof.
  unfold constructServices.
  destruct (getService AccessoryInformation services) eqn:Ei; [|discriminate].
  destruct (context a) as [name|]; [|discriminate]. eauto.
Qed.

(** X18: when the accessory has its information service and its context,
    the constructor returns, and the services it leaves are those it found,
    in their order, followed by a switch service if there was none and by a
    battery service if there was none: it never adds a second service of a
    type, and it leaves services of other types as they were. *)
Theorem constructor_adds_only_missing_services (a : PlatformAccessory)
    (services : list Service) (name : jsstring) :
  context a = Some name ->
  is_Some (getService AccessoryInformation services) ->
  exists built,
    constructServices a services = Constructed built /\
    serviceType <$> built =
      ((serviceType <$> services)
         ++ (if decide (StatelessProgrammableSwitch ∈ serviceType <$> services)
             then [] else [StatelessProgrammableSwitch])
         ++ (if decide (Battery ∈ serviceType <$> services)
             then [] else [Battery]))%list /\
    (forall s, s ∈ services ->
       serviceType s <> AccessoryInformation ->
       serviceType s <> StatelessProgrammableSwitch ->
       serviceType s <> Battery -> s ∈ built).
Proof.
  intros Hc Hi.
  destruct (constructServices_built a services name Hc Hi)
    as (built & E & Ht & _ & _ & _ & Ho).
  exists built. auto.
Qed.

(** X19: constructing again on the services a construction left, as a
    restart does with a cached accessory, changes nothing: no service is
    added and no value or read handler changes. *)
Theorem constructor_again_changes_nothing (a : PlatformAccessory)
    (services built : list Service) :
  constructServices a services = Constructed built ->
  constructServices a built = Constructed built.
Proof.
  intros E.
  destruct (constructServices_Constructed a services built E) as (name & Hc & Hi).
  destruct (constructServices_built a services name Hc Hi)
    as (built' & E' & _ & Hinfo & Hsw & Hbat & _).
  assert (built' = built) as -> by congruence.
  destruct Hi as [info Hi]. rewrite Hi in Hinfo. simpl in Hinfo.
  unfold constructServices. rewrite Hinfo, Hc.
  rewrite (alterFirst_fixed AccessoryInformation).
  2:{ intros s Hs. rewrite Hinfo in Hs. injection Hs as <-.
      apply writeInformation_again. }
  rewrite (getOrAddService_fixed StatelessProgrammableSwitch built)
    by (rewrite Hsw; eauto).
  rewrite (alterFirst_fixed StatelessProgrammableSwitch).
  2:{ intros s Hs. rewrite Hsw in Hs. injection Hs as <-.
      apply writeSwitch_again. }
  rewrite (getOrAddService_fixed Battery built) by (rewrite Hbat; eauto).
  rewrite (alterFirst_fixed Battery).
  2:{ intros s Hs. rewrite Hbat in Hs. injection Hs as <-.
      apply writeBattery_again. }
  reflexivity.
Qed.

(** X20: after a construction the information service carries the
    manufacturer "Homebridge", the model "Virtual Button" and the
    accessory's identifier as serial number; the switch service is named
    after the context name followed by " Switch"; the battery service is
    named after it followed by " Battery" and has its three read handlers.
    The name comes from the context, not from the display name. *)
Theorem constructor_writes (a : PlatformAccessory)
    (services built : list Service) :
  constructServices a services = Constructed built ->
  exists name info switch battery,
    context a = Some name /\
    getService AccessoryInformation built = Some info /\
    assoc Characteristic.Manufacturer (values info) = Some (lit "Homebridge") /\
    assoc Characteristic.Model (values info) = Some (lit "Virtual Button") /\
    assoc Characteristic.SerialNumber (values info) = Some (lit (UUID a)) /\
    getService StatelessProgrammableSwitch built = Some switch /\
    assoc Characteristic.Name (values switch) = Some (name ++ lit " Switch")%list /\
    getService Battery built = Some battery /\
    assoc Characteristic.Name (values battery) = Some (name ++ lit " Battery")%list /\
    assoc Characteristic.BatteryLevel (onGet battery) = Some BatteryLevelGet /\
    assoc Characteristic.StatusLowBattery (onGet battery) = Some StatusLowBatteryGet /\
    assoc Characteristic.ChargingState (onGet battery) = Some NotChargeableGet.
Proof.
  intros E.
  destruct (constructServices_Constructed a services built E) as (name & Hc & Hi).
  destruct (constructServices_built a services name Hc Hi)
    as (built' & E' & _ & Hinfo & Hsw & Hbat & _).
  assert (built' = built) as -> by congruence.
  destruct Hi as [info Hi]. rewrite Hi in Hinfo. simpl in Hinfo.
  exists name. eexists. eexists. eexists.
  split; [exact Hc|].
  split; [exact Hinfo|]. do 3 (split; [simpl; solve_assoc|]).
  split; [exact Hsw|]. split; [simpl; solve_assoc|].
  split; [exact Hbat|]. repeat split; simpl; solve_assoc.
Qed.

(** X21: the constructor throws exactly when the information service or
    the context is missing. Without the information service it throws
    before touching anything; with it but without a context it throws after
    having written the information service and fetched or added the switch
    service, so a switch service is there although the construction
    failed. *)
Theorem constructor_throws (a : PlatformAccessory) (services : list Service) :
  (getService AccessoryInformation services = None ->
   constructServices a services = Threw services) /\
  (is_Some (getService AccessoryInformation services) -> context a = None ->
   exists left,
     constructServices a services = Threw left /\
     is_Some (getService StatelessProgrammableSwitch left) /\
     getService AccessoryInformation left =
       writeInformation a <$> getService AccessoryInformation services /\
     getService Battery left = getService Battery services) /\
  ((exists built, constructServices a services = Constructed built) <->
   is_Some (getService AccessoryInformation services) /\ is_Some (context a)).
Proof.
  split; [|split].
  - intros E. unfold constructServices. rewrite E. reflexivity.
  - intros [info Hi] Hc. unfold constructServices. rewrite Hi, Hc.
    eexists. split; [reflexivity|]. split; [apply getOrAddService_present|].
    split.
    + rewrite getOrAddService_other by discriminate.
      rewrite getService_alterFirst_same by apply writeInformation_type.
      rewrite Hi. reflexivity.
    + rewrite getOrAddService_other by discriminate.
      apply getService_alterFirst_other; [discriminate|].
      apply writeInformation_type.
  - split.
    + intros [built E].
      destruct (constructServices_Constructed a services built E)
        as (name & Hc & Hi).
      split; [exact Hi | rewrite Hc; eauto].
    + intros [Hi [name Hc]].
      destruct (constructServices_built a services name Hc Hi) as (built & E & _).
      eauto.
Qed.

(** ** Closed instances of the further properties *)

Lemma configured_route_answer_witness :
  status (fst (routeHandler nameUuid doorbell clickRequest
                 (serveAll nameUuid
                    (startup nameUuid basicLowerCase basicFold doorbellConfig
                       [doorbellAccessory])
                    [(doorbell, holdRequest)]))) = 200.
Proof.
  rewrite (configured_route_answer nameUuid basicLowerCase basicFold
             doorbellConfig [doorbellAccessory] [(doorbell, holdRequest)]
             doorbell clickRequest).
  - reflexivity.
  - apply list_elem_of_here.
  - reflexivity.
Defined.

Lemma validated_header_is_the_level_witness :
  exists v, signedInt "5" = Some v /\ 0 <= v <= 100 /\
            requestBattery holdRequest = Some (int v).
Proof.
  exact (proj2 (validated_header_is_the_level holdRequest eq_refl) "5" eq_refl).
Defined.

Lemma valid_request_effect_witness :
  exists h',
    notifications h' = [LONG_PRESS] /\ batteryLevel h' = int 5.
Proof.
  destruct (valid_request_effect nameUuid doorbell holdRequest
              (startup nameUuid basicLowerCase basicFold doorbellConfig
                 [doorbellAccessory])
              doorbellAccessory (newButtonPlatformAccessory doorbellAccessory)
              LONG_PRESS)
    as (h' & _ & Hn & _ & _ & Hb).
  - reflexivity.
  - reflexivity.
  - vm_compute. reflexivity.
  - reflexivity.
  - exists h'. split; [exact Hn | apply (Hb "5" 5); reflexivity].
Defined.

Lemma index_stays_sound_witness :
  exists v, 0 <= v <= 100 /\
    batteryLevel (fst (triggerEvent (Some "hold") (Some (int 5))
                         (newButtonPlatformAccessory doorbellAccessory))) = int v.
Proof.
  destruct (index_stays_sound nameUuid basicLowerCase basicFold doorbellConfig
              [doorbellAccessory] [(doorbell, holdRequest)] (nameUuid doorbell)
              (fst (triggerEvent (Some "hold") (Some (int 5))
                      (newButtonPlatformAccessory doorbellAccessory))))
    as (_ & _ & H).
  - vm_compute. reflexivity.
  - exact H.
Defined.

Lemma no_buttons_configured_witness :
  api (startup nameUuid basicLowerCase basicFold
         {| config_port := None; config_buttons := None |} [doorbellAccessory])
  = [UnregisterPlatformAccessories doorbellAccessory].
Proof.
  apply (no_buttons_configured nameUuid basicLowerCase basicFold
           {| config_port := None; config_buttons := None |} [doorbellAccessory]).
  reflexivity.
Defined.

Lemma unmatched_path_not_found_witness :
  let r := {| reqPath := "/button-unknown-device";
              originalUrl := "/button-unknown-device?event=click";
              fields := clickRequest |} in
  let st := serveAll nameUuid
              (startup nameUuid basicLowerCase basicFold doorbellConfig
                 [doorbellAccessory]) [] in
  handleRequest nameUuid exactPath r st =
    ({| status := 404; body := Text "Button not found." |}, st,
     [UnconfiguredPath "/button-unknown-device?event=click"]).
Proof.
  apply (unmatched_path_not_found nameUuid basicLowerCase basicFold exactPath
           doorbellConfig [doorbellAccessory] []).
  intros n Hn. apply list_elem_of_singleton in Hn. subst n. reflexivity.
Defined.


Lemma constructor_adds_only_missing_services_witness :
  exists built,
    constructServices doorbellAccessory informationOnly = Constructed built /\
    serviceType <$> built =
      [AccessoryInformation; StatelessProgrammableSwitch; Battery].
Proof.
  destruct (constructor_adds_only_missing_services doorbellAccessory
              informationOnly doorbell)
    as (built & E & Ht & _).
  - reflexivity.
  - eexists. reflexivity.
  - exists built. split; [exact E | exact Ht].
Defined.

Lemma constructor_again_changes_nothing_witness :
  constructServices doorbellAccessory builtServices = Constructed builtServices.
Proof.
  apply (constructor_again_changes_nothing doorbellAccessory informationOnly).
  reflexivity.
Defined.

Lemma constructor_writes_witness :
  exists name switch,
    context doorbellAccessory = Some name /\
    getService StatelessProgrammableSwitch builtServices = Some switch /\
    assoc Characteristic.Name (values switch) = Some (name ++ lit " Switch")%list.
Proof.
  destruct (constructor_writes doorbellAccessory informationOnly builtServices)
    as (name & info & switch & battery & Hc & _ & _ & _ & _ & Hs & Hn & _).
  - reflexivity.
  - exists name, switch. repeat split; assumption.
Defined.

Lemma generateButtonUri_without_long_s_witness :
  generateButtonUri basicLowerCase basicFold (lit "Front Door #2") =
    (lit "/button-" ++
     ((fun ch => if bool_decide (ch ∈ classMembers) then ch else hyphen)
        <$> basicLowerCase (lit "Front Door #2")))%list.
Proof.
  apply (generateButtonUri_without_long_s basicLowerCase basicFold).
  - apply Forall_forall.
    refine (bool_decide_unpack (Forall (fun a => basicFold a = a) classMembers) _).
    vm_compute. exact I.
  - apply (proj1 (Forall_forall
                    (fun ch => basicFold ch ∈ classMembers ->
                               ch ∈ classMembers \/ ch = long_s)
                    (basicLowerCase (lit "Front Door #2")))).
    refine (bool_decide_unpack
              (Forall (fun ch => basicFold ch ∈ classMembers ->
                                 ch ∈ classMembers \/ ch = long_s)
                      (basicLowerCase (lit "Front Door #2"))) _).
    vm_compute. exact I.
  - intros H. revert H.
    refine (bool_decide_unpack (long_s ∉ basicLowerCase (lit "Front Door #2")) _).
    vm_compute. exact I.
Defined.
